(** * WER scoring and WER statistics: a shallow embedding

    The development follows the three Python modules of the repository.

    - [evaluate_wer.py]: [load_text_files], [calculate_wer], the scorer,
      and [evaluate_single_model].
    - [analyze_wer.py]: [calculate_statistics], [analyze_single_model] and
      the interpretation and ranking sections written by
      [generate_report].
    - [extract_transcript.py]: [extract_transcript].

    Numbers.  Python floats are embedded as real numbers extended with a
    not-a-number value ([pyfloat]).  Arithmetic is exact: the binary
    rounding error of IEEE doubles, overflow and the infinities are outside
    the model.  The decimal rounding done by Python's [round] is part of
    the code and is modelled explicitly ([py_round]).

    Libraries.  [jiwer.wer] and the pandas/numpy reductions used by the
    modules are not part of the repository; they are given here by their
    documented behaviour, each in a section of its own.  The order in
    which [sort_values] leaves rows of equal key is not documented; it is
    taken from the quicksort of numpy's sources. *)

From Stdlib Require Import Reals Lra Lia ZArith Arith Bool List.
From Stdlib Require Import String Ascii Permutation Sorted.
From Stdlib Require Import FunctionalExtensionality.
Import ListNotations.

Local Open Scope R_scope.

(* ===================================================================== *)
(** * Python values and control                                            *)
(* ===================================================================== *)

(** Exceptions.  [ValueError] is what [jiwer.wer] raises.
    [InsufficientDataError] is the error the specification names for an
    empty sample; the source defines and raises no such exception. *)
Inductive exn : Type :=
| ValueError (msg : string)
| InsufficientDataError.

(** The result of a call: a value, or a raised exception. *)
Inductive outcome (A : Type) : Type :=
| Returns (a : A)
| Raises (e : exn).

Arguments Returns {A} a.
Arguments Raises {A} e.

Definition bind {A B : Type} (c : outcome A) (k : A -> outcome B) : outcome B :=
  match c with
  | Returns a => k a
  | Raises e => Raises e
  end.

(** [try: body / except Exception as e: handler e]. *)
Definition try_except {A : Type} (body : outcome A) (handler : exn -> outcome A)
  : outcome A :=
  match body with
  | Returns a => Returns a
  | Raises e => handler e
  end.

Declare Scope py_scope.
Delimit Scope py_scope with py.
Notation "x <- c ;; k" := (bind c (fun x => k))
  (at level 61, c at next level, right associativity) : py_scope.

(** A Python float: not-a-number or a finite real. *)
Inductive pyfloat : Type :=
| NaN
| Fin (x : R).

Definition lift1 (f : R -> R) (a : pyfloat) : pyfloat :=
  match a with
  | Fin x => Fin (f x)
  | NaN => NaN
  end.

Definition lift2 (f : R -> R -> R) (a b : pyfloat) : pyfloat :=
  match a, b with
  | Fin x, Fin y => Fin (f x y)
  | _, _ => NaN
  end.

Definition fadd : pyfloat -> pyfloat -> pyfloat := lift2 Rplus.
Definition fsub : pyfloat -> pyfloat -> pyfloat := lift2 Rminus.
Definition fmul : pyfloat -> pyfloat -> pyfloat := lift2 Rmult.
Definition fdiv : pyfloat -> pyfloat -> pyfloat := lift2 Rdiv.
Definition fsqrt : pyfloat -> pyfloat := lift1 sqrt.

(** Comparisons with a not-a-number operand are false. *)
Definition fle (a b : pyfloat) : Prop :=
  match a, b with
  | Fin x, Fin y => x <= y
  | _, _ => False
  end.

(** [a > 0] as the test of a Python conditional. *)
Definition fpos (a : pyfloat) : bool :=
  match a with
  | Fin x => if Rlt_dec 0 x then true else false
  | NaN => false
  end.

Definition is_nan (a : pyfloat) : bool :=
  match a with
  | NaN => true
  | Fin _ => false
  end.

(** Round to the nearest integer, ties to the even one. *)
Definition round_half_even (x : R) : Z :=
  let f := Zfloor x in
  let d := x - IZR f in
  if Rlt_dec d (1 / 2) then f
  else if Rlt_dec (1 / 2) d then (f + 1)%Z
  else if Z.even f then f else (f + 1)%Z.

(** Python's [round(x, ndigits)] on a finite float. *)
Definition py_round (x : R) (ndigits : nat) : R :=
  IZR (round_half_even (x * 10 ^ ndigits)) / 10 ^ ndigits.

(** [round(nan, n)] is [nan]. *)
Definition fround (a : pyfloat) (ndigits : nat) : pyfloat :=
  lift1 (fun x => py_round x ndigits) a.

(* ===================================================================== *)
(** * Python strings                                                       *)
(* ===================================================================== *)

Local Open Scope string_scope.

(** [str.isspace] on the ASCII range: tab, line feed, vertical tab, form
    feed, carriage return, the four separators 28-31 and the space. *)
Definition isspace (c : ascii) : bool :=
  let n := nat_of_ascii c in
  ((9 <=? n)%nat && (n <=? 13)%nat) || ((28 <=? n)%nat && (n <=? 32)%nat).

Fixpoint lstrip (s : string) : string :=
  match s with
  | EmptyString => EmptyString
  | String c s' => if isspace c then lstrip s' else s
  end.

Fixpoint rstrip (s : string) : string :=
  match s with
  | EmptyString => EmptyString
  | String c s' =>
      match rstrip s' with
      | EmptyString => if isspace c then EmptyString else String c EmptyString
      | t => String c t
      end
  end.

(** [str.strip()], as [load_text_files] applies it to every file. *)
Definition strip (s : string) : string := rstrip (lstrip s).

(** Truthiness of a string: [not s] holds exactly for the empty string. *)
Definition py_not (s : string) : bool :=
  match s with
  | EmptyString => true
  | String _ _ => false
  end.

(** Splitting on runs of whitespace ([str.split()]): the words of a text. *)
Fixpoint split (s : string) : list string :=
  match s with
  | EmptyString => []
  | String c s' =>
      if isspace c then split s'
      else
        match s' with
        | EmptyString => [String c EmptyString]
        | String c' _ =>
            if isspace c' then String c EmptyString :: split s'
            else
              match split s' with
              | w :: ws => String c w :: ws
              | [] => [String c EmptyString]
              end
        end
  end.

(* ===================================================================== *)
(** * jiwer                                                                *)
(* ===================================================================== *)

(** Modelled from the spec: the word-alignment routine of the jiwer
    library, which the repository imports and does not contain.  It is a
    Levenshtein distance over words, not characters, with unit costs for a
    substitution, a deletion and an insertion, given by the recurrence of
    the classic table: the outer recursion walks the reference, the inner
    one the hypothesis. *)
Fixpoint levenshtein (r h : list string) {struct r} : nat :=
  match r with
  | [] => List.length h
  | x :: r' =>
      (fix row (h : list string) : nat :=
         match h with
         | [] => S (List.length r')
         | y :: h' =>
             Nat.min ((if String.eqb x y then 0 else 1) + levenshtein r' h')
                     (Nat.min (S (levenshtein r' h)) (S (row h')))
         end) h
  end.

(** An alignment of a reference with a hypothesis: matching words are kept,
    the others are substituted, deleted from the reference or inserted from
    the hypothesis.  The index counts the words that are not kept. *)
Inductive alignment : list string -> list string -> nat -> Prop :=
| align_done : alignment [] [] 0
| align_hit w r h n :
    alignment r h n -> alignment (w :: r) (w :: h) n
| align_substitution x y r h n :
    alignment r h n -> alignment (x :: r) (y :: h) (S n)
| align_deletion x r h n :
    alignment r h n -> alignment (x :: r) h (S n)
| align_insertion y r h n :
    alignment r h n -> alignment r (y :: h) (S n).

(** Modelled from the spec: [jiwer.wer(reference, hypothesis)], the number
    of word edits over the number of reference words, both texts being
    split on whitespace; a hypothesis without any word is compared as the
    empty list of words.  The spec is silent on a reference without any
    word, where the ratio is undefined: what the library does there
    depends on its version (jiwer up to 3 raises [ValueError], as written
    here; jiwer 4 returns the number of hypothesis words).  The texts that
    [load_text_files] hands to [calculate_wer] never reach this case: they
    are trimmed, and the empty text is stopped by the guard. *)
Definition jiwer_wer (reference hypothesis : string) : outcome R :=
  let r := split reference in
  let h := split hypothesis in
  match r with
  | [] => Raises (ValueError "one or more references are empty strings")
  | _ :: _ => Returns (INR (levenshtein r h) / INR (List.length r))
  end.

(* ===================================================================== *)
(** * evaluate_wer.py                                                      *)
(* ===================================================================== *)

(** [calculate_wer(reference, hypothesis)].  The message printed by the
    handler goes to standard output and is not part of the result. *)
Definition calculate_wer (reference hypothesis : string) : outcome R :=
  if py_not reference || py_not hypothesis then Returns 100
  else
    try_except
      (wer <- jiwer_wer reference hypothesis ;;
       Returns (py_round (wer * 100) 2))%py
      (fun _ => Returns 100).

(* ===================================================================== *)
(** * pandas and numpy                                                     *)
(* ===================================================================== *)

Local Open Scope R_scope.

(** A [pd.Series] of WER values is a list of finite reals.  The reductions
    below are the pandas methods called by [calculate_statistics], with
    their defaults: missing values skipped (there are none in this
    embedding), [ddof=1], linear interpolation of quantiles. *)
Definition Series : Type := list R.

Definition Rsum (l : list R) : R := fold_right Rplus 0 l.

Definition Rleb (x y : R) : bool := if Rle_dec x y then true else false.
Definition Rltb (x y : R) : bool := if Rlt_dec x y then true else false.

(** [len(s)]. *)
Definition len (s : Series) : nat := List.length s.

(** [int(mask.sum())] for the boolean mask [p] over the series. *)
Definition mask_sum (p : R -> bool) (s : Series) : nat :=
  List.length (filter p s).

(** [s.mean()]: not-a-number on an empty series. *)
Definition pd_mean (s : Series) : pyfloat :=
  match s with
  | [] => NaN
  | _ :: _ => Fin (Rsum s / INR (len s))
  end.

(** The sum of the [k]-th powers of the deviations from the mean. *)
Definition moment_sum (k : nat) (s : Series) : R :=
  let m := Rsum s / INR (len s) in
  Rsum (map (fun x => (x - m) ^ k) s).

(** [s.var()]: the divisor is [count - 1]; not-a-number when
    [count <= ddof]. *)
Definition pd_var (s : Series) : pyfloat :=
  if (len s <=? 1)%nat then NaN
  else Fin (moment_sum 2 s / (INR (len s) - 1)).

(** [s.std()]: the square root of [s.var()]. *)
Definition pd_std (s : Series) : pyfloat := fsqrt (pd_var s).

(** [s.sem()]: [sqrt(var) / sqrt(count)]. *)
Definition pd_sem (s : Series) : pyfloat :=
  fdiv (fsqrt (pd_var s)) (Fin (sqrt (INR (len s)))).

Definition pd_min (s : Series) : pyfloat :=
  match s with
  | [] => NaN
  | x :: s' => Fin (fold_right Rmin x s')
  end.

Definition pd_max (s : Series) : pyfloat :=
  match s with
  | [] => NaN
  | x :: s' => Fin (fold_right Rmax x s')
  end.

Fixpoint insert_sorted (x : R) (l : list R) : list R :=
  match l with
  | [] => [x]
  | y :: l' => if Rle_dec x y then x :: l else y :: insert_sorted x l'
  end.

(** [np.sort]: the order statistics of the series. *)
Definition np_sort (s : Series) : list R := fold_right insert_sorted [] s.

(** [s.quantile(q)]: linear interpolation between the two order statistics
    around the position [(n - 1) * q]. *)
Definition pd_quantile (s : Series) (q : R) : pyfloat :=
  match s with
  | [] => NaN
  | _ :: _ =>
      let sorted := np_sort s in
      let pos := (INR (len s) - 1) * q in
      let lo := Z.to_nat (Zfloor pos) in
      let hi := Nat.min (S lo) (len s - 1) in
      let a := nth lo sorted 0 in
      let b := nth hi sorted 0 in
      Fin (a + (b - a) * (pos - INR lo))
  end.

(** [s.median()]: the middle order statistic, or the mean of the two
    middle ones. *)
Definition pd_median (s : Series) : pyfloat :=
  match s with
  | [] => NaN
  | _ :: _ =>
      let sorted := np_sort s in
      let n := len s in
      if Nat.even n
      then Fin ((nth (n / 2 - 1) sorted 0 + nth (n / 2) sorted 0) / 2)
      else Fin (nth (n / 2) sorted 0)
  end.

(** [s.skew()]: the bias-corrected sample skewness; not-a-number below
    three values, and not-a-number when all the values are equal, where the
    ratio of the moments is undefined (pandas 3; earlier versions of
    pandas return 0 for equal values). *)
Definition pd_skew (s : Series) : pyfloat :=
  let n := INR (len s) in
  let m2 := moment_sum 2 s in
  let m3 := moment_sum 3 s in
  if (len s <? 3)%nat then NaN
  else if Req_dec_T m2 0 then NaN
  else Fin (n * sqrt (n - 1) / (n - 2) * (m3 / (m2 * sqrt m2))).

(** [s.kurtosis()]: the bias-corrected excess kurtosis; not-a-number below
    four values, and not-a-number when the denominator vanishes, which is
    when all the values are equal (pandas 3; earlier versions return 0). *)
Definition pd_kurt (s : Series) : pyfloat :=
  let n := INR (len s) in
  let m2 := moment_sum 2 s in
  let m4 := moment_sum 4 s in
  let adj := 3 * (n - 1) ^ 2 / ((n - 2) * (n - 3)) in
  let numerator := n * (n + 1) * (n - 1) * m4 in
  let denominator := (n - 2) * (n - 3) * m2 ^ 2 in
  if (len s <? 4)%nat then NaN
  else if Req_dec_T denominator 0 then NaN
  else Fin (numerator / denominator - adj).

(** [count / len(s)] on numpy integers: true division, where [0 / 0] is
    not-a-number and raises nothing.  The numerator is a count of elements
    of the series, so a zero divisor only meets a zero numerator. *)
Definition np_true_divide (a b : nat) : pyfloat :=
  match b with
  | O => NaN
  | S _ => Fin (INR a / INR b)
  end.

(* ===================================================================== *)
(** * analyze_wer.py                                                       *)
(* ===================================================================== *)

(** An entry of the dictionary that is either a Python [int] or a Python
    [float]: the [cv] entry is the integer [0] when the mean is not
    positive, a float otherwise. *)
Inductive number : Type :=
| Int (z : Z)
| Float (f : pyfloat).

(** [round(value, 4) if isinstance(value, float)]. *)
Definition round_entry (v : number) : number :=
  match v with
  | Float f => Float (fround f 4)
  | Int z => Int z
  end.

(** The dictionary built by [calculate_statistics], one field per key. *)
Module Stats.
Record t : Type := mk {
  count : nat;
  mean : pyfloat;
  median : pyfloat;
  std : pyfloat;
  variance : pyfloat;
  min : pyfloat;
  max : pyfloat;
  range : pyfloat;
  q1 : pyfloat;
  q3 : pyfloat;
  iqr : pyfloat;
  p5 : pyfloat;
  p95 : pyfloat;
  skewness : pyfloat;
  kurtosis : pyfloat;
  cv : number;
  sem : pyfloat;
  ci_95_lower : pyfloat;
  ci_95_upper : pyfloat;
  excellent_count : nat;
  good_count : nat;
  fair_count : nat;
  poor_count : nat;
  excellent_pct : pyfloat;
  good_pct : pyfloat;
  fair_pct : pyfloat;
  poor_pct : pyfloat
}.
End Stats.

(** The four masks of the performance categories. *)
Definition is_excellent (x : R) : bool := Rleb x 10.
Definition is_good (x : R) : bool := Rltb 10 x && Rleb x 20.
Definition is_fair (x : R) : bool := Rltb 20 x && Rleb x 30.
Definition is_poor (x : R) : bool := Rltb 30 x.

(** [pct]: [mask.sum() / len(wer_values) * 100]. *)
Definition band_pct (p : R -> bool) (s : Series) : pyfloat :=
  fmul (np_true_divide (mask_sum p s) (len s)) (Fin 100).

(** The dictionary literal of [calculate_statistics], before the rounding
    loop. *)
Definition stats_literal (wer_values : Series) : Stats.t :=
  {| Stats.count := len wer_values;
     Stats.mean := pd_mean wer_values;
     Stats.median := pd_median wer_values;
     Stats.std := pd_std wer_values;
     Stats.variance := pd_var wer_values;
     Stats.min := pd_min wer_values;
     Stats.max := pd_max wer_values;
     Stats.range := fsub (pd_max wer_values) (pd_min wer_values);
     Stats.q1 := pd_quantile wer_values (25 / 100);
     Stats.q3 := pd_quantile wer_values (75 / 100);
     Stats.iqr := fsub (pd_quantile wer_values (75 / 100))
                       (pd_quantile wer_values (25 / 100));
     Stats.p5 := pd_quantile wer_values (5 / 100);
     Stats.p95 := pd_quantile wer_values (95 / 100);
     Stats.skewness := pd_skew wer_values;
     Stats.kurtosis := pd_kurt wer_values;
     Stats.cv :=
       if fpos (pd_mean wer_values)
       then Float (fmul (fdiv (pd_std wer_values) (pd_mean wer_values))
                        (Fin 100))
       else Int 0;
     Stats.sem := pd_sem wer_values;
     Stats.ci_95_lower :=
       fsub (pd_mean wer_values) (fmul (Fin (196 / 100)) (pd_sem wer_values));
     Stats.ci_95_upper :=
       fadd (pd_mean wer_values) (fmul (Fin (196 / 100)) (pd_sem wer_values));
     Stats.excellent_count := mask_sum is_excellent wer_values;
     Stats.good_count := mask_sum is_good wer_values;
     Stats.fair_count := mask_sum is_fair wer_values;
     Stats.poor_count := mask_sum is_poor wer_values;
     Stats.excellent_pct := band_pct is_excellent wer_values;
     Stats.good_pct := band_pct is_good wer_values;
     Stats.fair_pct := band_pct is_fair wer_values;
     Stats.poor_pct := band_pct is_poor wer_values |}.

(** The loop [stats[key] = round(value, 4)] over the float entries; the
    integer entries are left as they are. *)
Definition round_floats (s : Stats.t) : Stats.t :=
  {| Stats.count := Stats.count s;
     Stats.mean := fround (Stats.mean s) 4;
     Stats.median := fround (Stats.median s) 4;
     Stats.std := fround (Stats.std s) 4;
     Stats.variance := fround (Stats.variance s) 4;
     Stats.min := fround (Stats.min s) 4;
     Stats.max := fround (Stats.max s) 4;
     Stats.range := fround (Stats.range s) 4;
     Stats.q1 := fround (Stats.q1 s) 4;
     Stats.q3 := fround (Stats.q3 s) 4;
     Stats.iqr := fround (Stats.iqr s) 4;
     Stats.p5 := fround (Stats.p5 s) 4;
     Stats.p95 := fround (Stats.p95 s) 4;
     Stats.skewness := fround (Stats.skewness s) 4;
     Stats.kurtosis := fround (Stats.kurtosis s) 4;
     Stats.cv := round_entry (Stats.cv s);
     Stats.sem := fround (Stats.sem s) 4;
     Stats.ci_95_lower := fround (Stats.ci_95_lower s) 4;
     Stats.ci_95_upper := fround (Stats.ci_95_upper s) 4;
     Stats.excellent_count := Stats.excellent_count s;
     Stats.good_count := Stats.good_count s;
     Stats.fair_count := Stats.fair_count s;
     Stats.poor_count := Stats.poor_count s;
     Stats.excellent_pct := fround (Stats.excellent_pct s) 4;
     Stats.good_pct := fround (Stats.good_pct s) 4;
     Stats.fair_pct := fround (Stats.fair_pct s) 4;
     Stats.poor_pct := fround (Stats.poor_pct s) 4 |}.

(** [calculate_statistics(wer_values)].  The body has no [raise], and none
    of the reductions raises on a series of floats. *)
Definition calculate_statistics (wer_values : Series) : outcome Stats.t :=
  Returns (round_floats (stats_literal wer_values)).

(** A row of the comparison table: the statistics of one model with the
    two entries added by [analyze_single_model]. *)
Record row : Type := mk_row {
  model_name : string;
  csv_file : string;
  row_stats : Stats.t
}.

(** [analyze_single_model(csv_file)].  Of the loaded table only the [wer]
    column is read: [None] stands for a table without that column (which
    includes the empty table returned after a failed load), [Some s] for a
    table whose column is [s].  The table is empty exactly when it has no
    row.  [model_name] is the stem of the file name without [_wer].  The
    empty dictionary is [None]. *)
Definition analyze_single_model (wer : option Series)
    (model_name csv_file : string) : outcome (option row) :=
  match wer with
  | None => Returns None
  | Some [] => Returns None
  | Some (x :: s) =>
      (stats <- calculate_statistics (x :: s) ;;
       Returns (Some (mk_row model_name csv_file stats)))%py
  end.

(** The key of [sort_values('mean')] in ascending order, missing values
    last. *)
Definition mean_le (a b : row) : Prop :=
  match Stats.mean (row_stats a), Stats.mean (row_stats b) with
  | Fin x, Fin y => x <= y
  | _, NaN => True
  | NaN, Fin _ => False
  end.

(** [enumerate(names, start)]. *)
Fixpoint enumerate {A : Type} (start : nat) (l : list A) : list (nat * A) :=
  match l with
  | [] => []
  | a :: l' => (start, a) :: enumerate (S start) l'
  end.

(** ** numpy: [argsort] of kind ['quicksort'] *)

(** The quicksort numpy applies to an array of indices ([aquicksort_] in
    numpy's npysort/quicksort.cpp), the reference implementation behind
    [ndarray.argsort(kind='quicksort')].  [tosort] holds the indices
    [0 .. num-1]; the keys are read through them, and [less i j] stands
    for [v[i] < v[j]].

    A segment [pl .. pr] of more than 17 entries is partitioned: the
    entries at [pl], at the middle and at [pr] are put in order, the middle
    one is the pivot and is parked at [pr - 1], two pointers walk towards
    each other and exchange the entries they stop at, and the pivot is put
    back where they meet.  Both parts are then treated in the same way, the
    smaller one first.  A segment of at most 17 entries is sorted by
    straight insertion.  After the partitions no entry is greater than
    one of a segment further right, so the insertions within the segments
    are written here as one insertion pass over the whole array.

    Left out: the switch to heapsort that numpy makes when the partitions
    nest deeper than twice the binary logarithm of [num], and the
    vectorised sorting routines that numpy substitutes on processors with
    AVX2 or AVX-512.  All of them return the indices in ascending order of
    the keys; they differ in the order they leave equal keys in. *)
Definition SMALL_QUICKSORT : nat := 16.

Section Quicksort.

Variable less : nat -> nat -> bool.

(** [a[i] = x]. *)
Fixpoint store (i x : nat) (a : list nat) : list nat :=
  match a, i with
  | [], _ => []
  | _ :: a', O => x :: a'
  | y :: a', S i' => y :: store i' x a'
  end.

(** [INTP_SWAP(a[i], a[j])]. *)
Definition INTP_SWAP (i j : nat) (a : list nat) : list nat :=
  if (i <? List.length a)%nat && (j <? List.length a)%nat
  then store j (nth i a O) (store i (nth j a O) a)
  else a.

(** [do { ++pi; } while (less(v[*pi], vp));] *)
Fixpoint scan_up (fuel : nat) (a : list nat) (vp pi : nat) : nat :=
  match fuel with
  | O => pi
  | S fuel' =>
      if less (nth (S pi) a O) vp then scan_up fuel' a vp (S pi) else S pi
  end.

(** [do { --pj; } while (less(vp, v[*pj]));] *)
Fixpoint scan_down (fuel : nat) (a : list nat) (vp pj : nat) : nat :=
  match fuel with
  | O => pj
  | S fuel' =>
      if less vp (nth (pj - 1) a O) then scan_down fuel' a vp (pj - 1)
      else (pj - 1)%nat
  end.

(** The loop [for (;;)] of the partition: it ends when the pointers have
    met, with the array and the meeting point [pi]. *)
Fixpoint partition_loop (fuel : nat) (a : list nat) (vp pi pj : nat)
  : list nat * nat :=
  match fuel with
  | O => (a, pi)
  | S fuel' =>
      let pi' := scan_up (List.length a) a vp pi in
      let pj' := scan_down (List.length a) a vp pj in
      if (pj' <=? pi')%nat then (a, pi')
      else partition_loop fuel' (INTP_SWAP pi' pj' a) vp pi' pj'
  end.

(** The partition of the segment [pl .. pr]: the array and the final
    place of the pivot. *)
Definition partition (a : list nat) (pl pr : nat) : list nat * nat :=
  let pm := (pl + (pr - pl) / 2)%nat in
  let a := if less (nth pm a O) (nth pl a O) then INTP_SWAP pm pl a else a in
  let a := if less (nth pr a O) (nth pm a O) then INTP_SWAP pr pm a else a in
  let a := if less (nth pm a O) (nth pl a O) then INTP_SWAP pm pl a else a in
  let vp := nth pm a O in
  let a := INTP_SWAP pm (pr - 1) a in
  let '(a, pi) := partition_loop (List.length a) a vp pl (pr - 1) in
  (INTP_SWAP pi (pr - 1) a, pi).

(** The partitions of the segment [pl .. pr] and of its parts, down to
    segments of at most 17 entries. *)
Fixpoint quicksort_partitions (fuel : nat) (a : list nat) (pl pr : nat)
  : list nat :=
  match fuel with
  | O => a
  | S fuel' =>
      if (SMALL_QUICKSORT <? pr - pl)%nat then
        let '(a', pi) := partition a pl pr in
        if (pi - pl <? pr - pi)%nat
        then quicksort_partitions fuel'
               (quicksort_partitions fuel' a' pl (pi - 1)) (pi + 1) pr
        else quicksort_partitions fuel'
               (quicksort_partitions fuel' a' (pi + 1) pr) pl (pi - 1)
      else a
  end.

(** One step of the insertion sort: the entry [vi] moves left past the
    entries of greater key.  [left] holds the entries already in order,
    the nearest one first. *)
Fixpoint insert_left (vi : nat) (left : list nat) : list nat :=
  match left with
  | [] => [vi]
  | vk :: left' =>
      if less vi vk then vk :: insert_left vi left' else vi :: left
  end.

Definition insertion_sort (a : list nat) : list nat :=
  rev (fold_left (fun left vi => insert_left vi left) a []).

(** [aquicksort_(v, tosort, num)]: the indices [0 .. num-1] in the order
    of their keys. *)
Definition aquicksort (num : nat) : list nat :=
  insertion_sort (quicksort_partitions num (seq 0 num) 0 (num - 1)).

End Quicksort.

(** ** pandas: [DataFrame.sort_values] *)

(** [v[i] < v[j]] on the means of two rows that are numbers. *)
Definition mean_ltb (a b : row) : bool :=
  match Stats.mean (row_stats a), Stats.mean (row_stats b) with
  | Fin x, Fin y => Rltb x y
  | _, _ => false
  end.

(** [items.take(indexer)]. *)
Definition take {A : Type} (items : list A) (indexer : list nat) : list A :=
  flat_map (fun i => match nth_error items i with
                     | Some r => [r]
                     | None => []
                     end) indexer.

(** The comparison of the keys at two positions of [items]. *)
Definition less_at {A : Type} (ltb : A -> A -> bool) (items : list A)
    (i j : nat) : bool :=
  match nth_error items i, nth_error items j with
  | Some a, Some b => ltb a b
  | _, _ => false
  end.

(** [comparison_df.sort_values('mean')] with its defaults: ascending, of
    kind ['quicksort'], missing values last ([nargsort] in
    pandas/core/sorting.py).  The rows whose mean is a number are ordered
    by [argsort] of their means; the rows whose mean is not a number
    follow in their input order. *)
Definition sort_values_mean (df : list row) : list row :=
  let mask := fun r : row => is_nan (Stats.mean (row_stats r)) in
  let non_nans := filter (fun r => negb (mask r)) df in
  (take non_nans
        (aquicksort (less_at mean_ltb non_nans) (List.length non_nans))
   ++ filter mask df)%list.

(** The section "MODEL COMPARISON (Ranked by Mean WER)" of
    [generate_report]: the ranks and model names of the lines written,
    none when the table has a single row. *)
Definition ranked_models (comparison_df : list row) : list (nat * string) :=
  if (1 <? List.length comparison_df)%nat
  then enumerate 1 (map model_name (sort_values_mean comparison_df))
  else [].

(** [x] comes before [y] in [l]. *)
Definition before {A : Type} (x y : A) (l : list A) : Prop :=
  exists l1 l2 l3, l = (l1 ++ x :: l2 ++ y :: l3)%list.

Fixpoint beforeb (x y : string) (l : list string) : bool :=
  match l with
  | [] => false
  | z :: l' =>
      (String.eqb z x && existsb (String.eqb y) l') || beforeb x y l'
  end.

(** The ranking keeps the input order of the models of equal mean: of two
    such models the one earlier in the table is the one earlier in the
    ranking. *)
Definition ties_keep_input_order (df : list row) : Prop :=
  forall a b : row,
    before a b df ->
    Stats.mean (row_stats a) = Stats.mean (row_stats b) ->
    before (model_name a) (model_name b) (map snd (ranked_models df)).

(** The three models of the ranking scenario, in input order.  Only the
    mean matters to the ranking; each row holds the statistics of a table
    of two equal scores. *)
Definition scenario_row (name : string) (wer : R) : row :=
  mk_row name (name ++ "_wer.csv") (round_floats (stats_literal [wer; wer])).

Definition scenario : list row :=
  [scenario_row "A" 12; scenario_row "B" (85 / 10); scenario_row "C" (85 / 10)].

(** A table of twenty models whose mean WER is 10, 20, 30 or 40, in input
    order. *)
Definition twenty_scores : list (string * Z) :=
  [("M01", 30); ("M02", 30); ("M03", 20); ("M04", 20); ("M05", 40);
   ("M06", 40); ("M07", 20); ("M08", 20); ("M09", 40); ("M10", 30);
   ("M11", 20); ("M12", 20); ("M13", 10); ("M14", 40); ("M15", 10);
   ("M16", 30); ("M17", 30); ("M18", 20); ("M19", 10); ("M20", 10)]%Z.

Definition score_row (model : string * Z) : row :=
  scenario_row (fst model) (IZR (snd model)).

Definition twenty_models : list row := map score_row twenty_scores.

(** A text made of whitespace only. *)
Fixpoint blank (s : string) : bool :=
  match s with
  | EmptyString => true
  | String c s' => isspace c && blank s'
  end.

(** The sum of the four percentages of a dictionary. *)
Definition pct_total (s : Stats.t) : pyfloat :=
  fadd (fadd (fadd (Stats.excellent_pct s) (Stats.good_pct s))
             (Stats.fair_pct s))
       (Stats.poor_pct s).

(** The dictionary returned for an empty series. *)
Definition empty_stats : Stats.t :=
  {| Stats.count := 0;
     Stats.mean := NaN; Stats.median := NaN; Stats.std := NaN;
     Stats.variance := NaN; Stats.min := NaN; Stats.max := NaN;
     Stats.range := NaN; Stats.q1 := NaN; Stats.q3 := NaN;
     Stats.iqr := NaN; Stats.p5 := NaN; Stats.p95 := NaN;
     Stats.skewness := NaN; Stats.kurtosis := NaN;
     Stats.cv := Int 0;
     Stats.sem := NaN; Stats.ci_95_lower := NaN; Stats.ci_95_upper := NaN;
     Stats.excellent_count := 0; Stats.good_count := 0;
     Stats.fair_count := 0; Stats.poor_count := 0;
     Stats.excellent_pct := NaN; Stats.good_pct := NaN;
     Stats.fair_pct := NaN; Stats.poor_pct := NaN |}.

(* ===================================================================== *)
(** * The rest of the three modules                                        *)
(* ===================================================================== *)

(** ** Comparisons of floats as tests *)

(** [a < b] and [a <= b] as the test of a conditional: false when an
    operand is not-a-number. *)
Definition fltb (a b : pyfloat) : bool :=
  match a, b with
  | Fin x, Fin y => Rltb x y
  | _, _ => false
  end.

Definition fleb (a b : pyfloat) : bool :=
  match a, b with
  | Fin x, Fin y => Rleb x y
  | _, _ => false
  end.

(** [abs(a)]. *)
Definition fabs : pyfloat -> pyfloat := lift1 Rabs.

(** The value of an entry as the float it is compared as. *)
Definition number_value (v : number) : pyfloat :=
  match v with
  | Int z => Fin (IZR z)
  | Float f => f
  end.

(** ** analyze_wer.py: the interpretation block of [generate_report] *)

(** The text chosen for [row['cv']]. *)
Definition cv_interp (r : Stats.t) : string :=
  if fltb (number_value (Stats.cv r)) (Fin 15)
  then "Low variability - highly consistent performance"
  else if fltb (number_value (Stats.cv r)) (Fin 30)
  then "Moderate variability - reasonably consistent"
  else "High variability - inconsistent performance".

(** The text chosen for [row['skewness']]. *)
Definition skew_interp (r : Stats.t) : string :=
  if fltb (fabs (Stats.skewness r)) (Fin (5 / 10))
  then "Approximately symmetric distribution"
  else if fltb (Fin 0) (Stats.skewness r)
  then "Right-skewed - more samples with low WER"
  else "Left-skewed - more samples with high WER".

(** The rating chosen for [row['mean']]. *)
Definition overall (r : Stats.t) : string :=
  if fleb (Stats.mean r) (Fin 10) then "EXCELLENT"
  else if fleb (Stats.mean r) (Fin 20) then "GOOD"
  else if fleb (Stats.mean r) (Fin 30) then "FAIR"
  else "POOR".

(** ** analyze_wer.py: the model name of a result file *)

(** [str.replace(old, '')]: every occurrence of [old], found from left to
    right without overlap, is removed. *)
Fixpoint drop (n : nat) (s : string) : string :=
  match n, s with
  | O, _ => s
  | S n', String _ s' => drop n' s'
  | S _, EmptyString => EmptyString
  end.

Fixpoint remove_all_fuel (fuel : nat) (old s : string) : string :=
  match fuel with
  | O => s
  | S fuel' =>
      match s with
      | EmptyString => EmptyString
      | String c s' =>
          if String.prefix old s
          then remove_all_fuel fuel' old (drop (String.length old) s)
          else String c (remove_all_fuel fuel' old s')
      end
  end.

(** [old in s]. *)
Fixpoint contains (old s : string) : bool :=
  match s with
  | EmptyString => String.prefix old EmptyString
  | String _ s' => String.prefix old s || contains old s'
  end.

(** [stem.replace('_wer', '')]: the stem of the CSV path with every
    ["_wer"] removed. *)
Definition model_name_of_stem (stem : string) : string :=
  remove_all_fuel (String.length stem) "_wer" stem.

(** ** extract_transcript.py *)

(** [s.split(sep)] for a one-character separator: the pieces between the
    separators, at least one. *)
Fixpoint split_on (sep : ascii) (s : string) : list string :=
  match s with
  | EmptyString => [EmptyString]
  | String c s' =>
      if Ascii.eqb c sep then EmptyString :: split_on sep s'
      else
        match split_on sep s' with
        | p :: ps => String c p :: ps
        | [] => [String c EmptyString]
        end
  end.

(** The state of the loop of [extract_transcript]: the two counters and
    the files written so far, each as the number in its name
    ([<number>.txt]) and its content. *)
Record extract_state : Type := mk_extract_state {
  file_counter : nat;
  lines_processed : nat;
  written : list (nat * string)
}.

(** [num_lines and lines_processed >= num_lines]: [None] and [0] are
    falsy. *)
Definition limit_reached (num_lines : option Z) (processed : nat) : bool :=
  match num_lines with
  | None => false
  | Some z => negb (z =? 0)%Z && (z <=? Z.of_nat processed)%Z
  end.

(** The loop over the lines of the input file; a [break] ends the
    recursion. *)
Fixpoint extract_loop (num_lines : option Z) (lines : list string)
    (st : extract_state) : extract_state :=
  match lines with
  | [] => st
  | line :: rest =>
      let line := strip line in
      if py_not line then extract_loop num_lines rest st
      else
        let parts := split_on "|" line in
        if (2 <=? List.length parts)%nat then
          let transcript := strip (nth 1 parts EmptyString) in
          let st' :=
            {| file_counter := S (file_counter st);
               lines_processed := S (lines_processed st);
               written := written st ++ [(file_counter st, transcript)] |} in
          if limit_reached num_lines (lines_processed st') then st'
          else extract_loop num_lines rest st'
        else extract_loop num_lines rest st
  end.

(** [extract_transcript(input_file, output_dir, num_lines)] on the lines
    of the input file: the value returned and the files written. *)
Definition extract_transcript (lines : list string) (num_lines : option Z)
  : nat * list (nat * string) :=
  let st := extract_loop num_lines lines (mk_extract_state 1 0 []) in
  (lines_processed st, written st).

(** A line that yields a file, and the content of that file. *)
Definition has_transcript (line : string) : bool :=
  negb (py_not (strip line)) &&
  (2 <=? List.length (split_on "|" (strip line)))%nat.

Definition transcript_of (line : string) : string :=
  strip (nth 1 (split_on "|" (strip line)) EmptyString).

(** The number of files a limit allows among [n] lines that yield one. *)
Definition allowed (num_lines : option Z) (n : nat) : nat :=
  match num_lines with
  | None => n
  | Some z =>
      if (z =? 0)%Z then n
      else if (z <? 0)%Z then Nat.min 1 n
      else Nat.min (Z.to_nat z) n
  end.

(** The same with [processed] files already written. *)
Definition quota (num_lines : option Z) (processed n : nat) : nat :=
  match num_lines with
  | None => n
  | Some z =>
      if (z =? 0)%Z then n
      else Nat.min (Z.to_nat (Z.max 1 (z - Z.of_nat processed))) n
  end.

(** [c in s]. *)
Fixpoint occurs (c : ascii) (s : string) : bool :=
  match s with
  | EmptyString => false
  | String c' s' => Ascii.eqb c' c || occurs c s'
  end.

(** A text that does not start with whitespace. *)
Definition starts_clean (s : string) : Prop :=
  match s with
  | EmptyString => True
  | String c _ => isspace c = false
  end.

(** ** evaluate_wer.py: [load_text_files] and [evaluate_single_model] *)

(** A Python dictionary with string keys, in insertion order. *)
Definition dict (V : Type) : Type := list (string * V).

Fixpoint dict_get {V : Type} (k : string) (d : dict V) : option V :=
  match d with
  | [] => None
  | (k', v) :: d' => if String.eqb k k' then Some v else dict_get k d'
  end.

(** [d[k] = v]: the value of an existing key is replaced in place, a new
    key goes last. *)
Fixpoint dict_set {V : Type} (k : string) (v : V) (d : dict V) : dict V :=
  match d with
  | [] => [(k, v)]
  | (k', v') :: d' =>
      if String.eqb k k' then (k, v) :: d' else (k', v') :: dict_set k v d'
  end.

Definition keys {V : Type} (d : dict V) : list string := map fst d.

(** A dictionary display [{k1: v1, k2: v2, ...}]. *)
Definition dict_literal {V : Type} (items : list (string * V)) : dict V :=
  fold_left (fun d kv => dict_set (fst kv) (snd kv) d) items [].

(** [load_text_files(folder)] on the [.txt] files of the folder in sorted
    order, each given by the stem of its name and its content. *)
Definition load_text_files (files : list (string * string)) : dict string :=
  fold_left (fun data f => dict_set (fst f) (strip (snd f)) data) files [].

Fixpoint insert_id (k : string) (l : list string) : list string :=
  match l with
  | [] => [k]
  | k' :: l' => if String.leb k k' then k :: l else k' :: insert_id k l'
  end.

(** [sorted(ids)] on strings. *)
Definition sorted_ids (l : list string) : list string :=
  fold_right insert_id [] l.

(** [sorted(set(ground_truth.keys()) & set(model_output.keys()))]. *)
Definition common_ids (ground_truth model_output : dict string) : list string :=
  sorted_ids
    (nodup string_dec
       (filter (fun k => existsb (String.eqb k) (keys model_output))
               (keys ground_truth))).

(** What can escape [evaluate_single_model]: the error of reading a file
    ([open] or [read] fails, or the content is not valid UTF-8), a
    [KeyError] of a dictionary lookup, or an exception of
    [calculate_wer]. *)
Inductive raised : Type :=
| ReadError (filepath : string)
| KeyError (key : string)
| Propagated (e : exn).

Inductive result (A : Type) : Type :=
| Ok (a : A)
| Err (e : raised).

Arguments Ok {A} a.
Arguments Err {A} e.

(** [d[k]]. *)
Definition dict_getitem {V : Type} (d : dict V) (k : string) : result V :=
  match dict_get k d with
  | Some v => Ok v
  | None => Err (KeyError k)
  end.

(** A cell of a result row: a text or a score. *)
Inductive cell : Type :=
| Text (s : string)
| Score (x : R).

(** The row appended for one file. *)
Definition result_row (file_id ref_text hyp_text model_name : string)
    (wer_score : R) : dict cell :=
  dict_literal [("id", Text file_id);
                ("ground_truth", Text ref_text);
                (model_name, Text hyp_text);
                ("wer", Score wer_score)].

(** The loop over the common ids. *)
Fixpoint evaluate_rows (ground_truth model_output : dict string)
    (model_name : string) (ids : list string) : result (list (dict cell)) :=
  match ids with
  | [] => Ok []
  | file_id :: rest =>
      match dict_getitem ground_truth file_id with
      | Err e => Err e
      | Ok ref_text =>
          match dict_getitem model_output file_id with
          | Err e => Err e
          | Ok hyp_text =>
              match calculate_wer ref_text hyp_text with
              | Raises e => Err (Propagated e)
              | Returns wer_score =>
                  match evaluate_rows ground_truth model_output model_name
                                      rest with
                  | Err e => Err e
                  | Ok results =>
                      Ok (result_row file_id ref_text hyp_text model_name
                                     wer_score :: results)
                  end
              end
          end
      end
  end.

(** A folder as [load_text_files] reads it: its [.txt] files in sorted
    order, each given by the stem of its name and by what [open] and
    [read] give for it, the content or the error raised. *)
Definition folder : Type := list (string * result string).

(** The contents of the files, up to the first file that cannot be
    read. *)
Fixpoint read_files (files : folder) : result (list (string * string)) :=
  match files with
  | [] => Ok []
  | (stem, Err e) :: _ => Err e
  | (stem, Ok text) :: rest =>
      match read_files rest with
      | Ok contents => Ok ((stem, text) :: contents)
      | Err e => Err e
      end
  end.

(** [load_text_files(folder)] on a folder of the file system: the error of
    the first file that cannot be read ends the call. *)
Definition load_folder (files : folder) : result (dict string) :=
  match read_files files with
  | Ok contents => Ok (load_text_files contents)
  | Err e => Err e
  end.

(** [evaluate_single_model(ground_truth_folder, model_folder,
    model_name)]: the rows of the table returned, none when there is no
    common id.  The messages printed are not part of the result. *)
Definition evaluate_single_model (ground_truth_folder model_folder : folder)
    (model_name : string) : result (list (dict cell)) :=
  match load_folder ground_truth_folder with
  | Err e => Err e
  | Ok ground_truth =>
      match load_folder model_folder with
      | Err e => Err e
      | Ok model_output =>
          match common_ids ground_truth model_output with
          | [] => Ok []
          | id0 :: ids =>
              evaluate_rows ground_truth model_output model_name (id0 :: ids)
          end
      end
  end.

(** ** os.path and pathlib *)

Fixpoint ends_with (c0 : ascii) (s : string) : bool :=
  match s with
  | EmptyString => false
  | String c EmptyString => Ascii.eqb c c0
  | String _ s' => ends_with c0 s'
  end.

(** [os.path.join(a, b)] on POSIX paths. *)
Definition os_path_join (a b : string) : string :=
  match b with
  | String "/" _ => b
  | _ => if py_not a || ends_with "/" a then a ++ b else a ++ "/" ++ b
  end.

(** [Path(p).name] for a path that ends with a file name: the text after
    the last separator. *)
Fixpoint path_name (p : string) : string :=
  match p with
  | EmptyString => EmptyString
  | String c p' =>
      if occurs "/" p' then path_name p'
      else if Ascii.eqb c "/" then p' else p
  end.

(** [name[:i]] for the index [i] of the last dot of [name]; [None] when
    the name has no dot. *)
Fixpoint before_last_dot (name : string) : option string :=
  match name with
  | EmptyString => None
  | String c name' =>
      match before_last_dot name' with
      | Some stem => Some (String c stem)
      | None => if Ascii.eqb c "." then Some EmptyString else None
      end
  end.

(** [Path(p).stem]: the name without its last suffix.  The suffix starts
    at the last dot of the name, unless that dot is the first or the last
    character of the name, in which case there is no suffix (from Python
    3.14 on a last dot at the end of the name is a suffix as well). *)
Definition path_stem (p : string) : string :=
  let name := path_name p in
  match before_last_dot name with
  | Some (String c stem) =>
      if ends_with "." name then name else String c stem
  | _ => name
  end.

(** The model name of [analyze_single_model]:
    [Path(csv_file).stem.replace('_wer', '')]. *)
Definition model_name_of_path (csv_file : string) : string :=
  model_name_of_stem (path_stem csv_file).

(** The file written by [evaluate_multiple_models] for a model. *)
Definition output_file (output_dir model_name : string) : string :=
  os_path_join output_dir (model_name ++ "_wer.csv").

(* ===================================================================== *)
(** * Rounding                                                             *)
(* ===================================================================== *)

Section Rounding.

Lemma pow10_pos (n : nat) : 0 < 10 ^ n.
Proof. apply pow_lt; lra. Qed.

Lemma Rabs_le_between (a b : R) : Rabs a <= b -> - b <= a <= b.
Proof. unfold Rabs. destruct (Rcase_abs a); lra. Qed.

Lemma ratio_le_1 (a b : R) : 0 < b -> a <= b -> a / b <= 1.
Proof.
  intros Hb Hab. apply (Rmult_le_reg_r b); [exact Hb | ].
  replace (a / b * b) with a by (field; lra). lra.
Qed.

Lemma round_half_even_IZR (z : Z) : round_half_even (IZR z) = z.
Proof.
  unfold round_half_even.
  assert (E : Zfloor (IZR z) = z) by (apply Zfloor_eq; lra).
  rewrite E.
  destruct (Rlt_dec (IZR z - IZR z) (1 / 2)) as [_ | n]; [reflexivity | ].
  exfalso; apply n; lra.
Qed.

(** The rounded integer is within one half of the argument. *)
Lemma round_half_even_error (x : R) :
  Rabs (IZR (round_half_even x) - x) <= 1 / 2.
Proof.
  unfold round_half_even.
  pose proof (Zfloor_bound x) as [Hlo Hhi].
  destruct (Rlt_dec (x - IZR (Zfloor x)) (1 / 2)) as [H1 | H1].
  - apply Rabs_le; lra.
  - destruct (Rlt_dec (1 / 2) (x - IZR (Zfloor x))) as [H2 | H2].
    + rewrite plus_IZR; apply Rabs_le; lra.
    + destruct (Z.even (Zfloor x)).
      * apply Rabs_le; lra.
      * rewrite plus_IZR; apply Rabs_le; lra.
Qed.

Lemma round_half_even_ge_floor (x : R) : (Zfloor x <= round_half_even x)%Z.
Proof.
  unfold round_half_even.
  destruct (Rlt_dec _ _); [lia | ].
  destruct (Rlt_dec _ _); [lia | ].
  destruct (Z.even _); lia.
Qed.

Lemma round_half_even_le_ceil (x : R) : (round_half_even x <= Zfloor x + 1)%Z.
Proof.
  unfold round_half_even.
  destruct (Rlt_dec _ _); [lia | ].
  destruct (Rlt_dec _ _); [lia | ].
  destruct (Z.even _); lia.
Qed.

(** Rounding preserves the order. *)
Lemma round_half_even_mono (x y : R) :
  x <= y -> (round_half_even x <= round_half_even y)%Z.
Proof.
  intros Hxy.
  pose proof (Zfloor_le x y Hxy) as Hf.
  destruct (Z.eq_dec (Zfloor x) (Zfloor y)) as [E | NE].
  - unfold round_half_even. rewrite E.
    destruct (Rlt_dec (x - IZR (Zfloor y)) (1 / 2)) as [X1 | X1].
    + destruct (Rlt_dec (y - IZR (Zfloor y)) (1 / 2)); [lia | ].
      destruct (Rlt_dec (1 / 2) (y - IZR (Zfloor y))); [lia | ].
      destruct (Z.even (Zfloor y)); lia.
    + destruct (Rlt_dec (y - IZR (Zfloor y)) (1 / 2)) as [Y1 | Y1]; [lra | ].
      destruct (Rlt_dec (1 / 2) (x - IZR (Zfloor y))) as [X2 | X2].
      * destruct (Rlt_dec (1 / 2) (y - IZR (Zfloor y))); [lia | lra].
      * destruct (Rlt_dec (1 / 2) (y - IZR (Zfloor y))).
        -- destruct (Z.even (Zfloor y)); lia.
        -- destruct (Z.even (Zfloor y)); lia.
  - pose proof (round_half_even_le_ceil x).
    pose proof (round_half_even_ge_floor y).
    lia.
Qed.

(** A value with at most [n] decimals is left unchanged. *)
Lemma py_round_exact (x : R) (n : nat) (z : Z) :
  x * 10 ^ n = IZR z -> py_round x n = x.
Proof.
  intros E. unfold py_round. rewrite E, round_half_even_IZR, <- E.
  pose proof (pow10_pos n). field. lra.
Qed.

Lemma py_round_mono (x y : R) (n : nat) :
  x <= y -> py_round x n <= py_round y n.
Proof.
  intros Hxy. unfold py_round.
  pose proof (pow10_pos n) as Hp.
  apply Rmult_le_compat_r; [left; apply Rinv_0_lt_compat; exact Hp | ].
  apply IZR_le, round_half_even_mono.
  apply Rmult_le_compat_r; lra.
Qed.

(** [round(x, n)] is within half a unit of the [n]-th decimal of [x]. *)
Lemma py_round_error (x : R) (n : nat) :
  Rabs (py_round x n - x) <= 1 / 2 / 10 ^ n.
Proof.
  unfold py_round.
  pose proof (pow10_pos n) as Hp.
  pose proof (round_half_even_error (x * 10 ^ n)) as He.
  replace (IZR (round_half_even (x * 10 ^ n)) / 10 ^ n - x)
    with ((IZR (round_half_even (x * 10 ^ n)) - x * 10 ^ n) / 10 ^ n)
    by (field; lra).
  unfold Rdiv at 1. rewrite Rabs_mult.
  rewrite (Rabs_pos_eq (/ 10 ^ n))
    by (left; apply Rinv_0_lt_compat; exact Hp).
  unfold Rdiv at 2.
  apply Rmult_le_compat_r; [left; apply Rinv_0_lt_compat; exact Hp | exact He].
Qed.

(** A value strictly between two neighbours of the decimal grid, nearer
    to the lower one, rounds down to it. *)
Lemma py_round_down (x : R) (n : nat) (z : Z) :
  IZR z <= x * 10 ^ n < IZR z + 1 / 2 -> py_round x n = IZR z / 10 ^ n.
Proof.
  intros [Hlo Hhi]. unfold py_round, round_half_even.
  assert (E : Zfloor (x * 10 ^ n) = z) by (apply Zfloor_eq; lra).
  rewrite E.
  destruct (Rlt_dec (x * 10 ^ n - IZR z) (1 / 2)) as [_ | H]; [reflexivity | lra].
Qed.

(** Nearer to the upper neighbour, it rounds up to that one. *)
Lemma py_round_up (x : R) (n : nat) (z : Z) :
  IZR z + 1 / 2 < x * 10 ^ n < IZR z + 1 ->
  py_round x n = IZR (z + 1) / 10 ^ n.
Proof.
  intros [Hlo Hhi]. unfold py_round, round_half_even.
  assert (E : Zfloor (x * 10 ^ n) = z) by (apply Zfloor_eq; lra).
  rewrite E.
  destruct (Rlt_dec (x * 10 ^ n - IZR z) (1 / 2)) as [H | _]; [lra | ].
  destruct (Rlt_dec (1 / 2) (x * 10 ^ n - IZR z)) as [_ | H]; [reflexivity | lra].
Qed.

End Rounding.

(* ===================================================================== *)
(** * Strings and words                                                    *)
(* ===================================================================== *)

Section Words.

Local Open Scope string_scope.

Lemma py_not_true (s : string) : py_not s = true <-> s = "".
Proof. destruct s; simpl; split; congruence. Qed.

Lemma lstrip_blank (s : string) : blank (lstrip s) = blank s.
Proof.
  induction s as [ | c s IH]; simpl; [reflexivity | ].
  destruct (isspace c) eqn:E; simpl; [exact IH | rewrite E; reflexivity].
Qed.

Lemma rstrip_empty (s : string) : rstrip s = "" <-> blank s = true.
Proof.
  induction s as [ | c s IH]; simpl; [tauto | ].
  destruct (rstrip s) eqn:R.
  - destruct (isspace c); simpl.
    + split; intros _; [apply IH | ]; reflexivity.
    + split; discriminate.
  - split; [discriminate | ].
    intros H. apply andb_true_iff in H as [_ H].
    apply IH in H. discriminate.
Qed.

(** A text strips to the empty string exactly when it is blank. *)
Lemma strip_empty (s : string) : strip s = "" <-> blank s = true.
Proof. unfold strip. rewrite rstrip_empty, lstrip_blank. tauto. Qed.

(** A text has no word exactly when it is blank. *)
Lemma split_nil (s : string) : split s = [] <-> blank s = true.
Proof.
  induction s as [ | c s IH]; simpl; [tauto | ].
  destruct (isspace c); simpl; [exact IH | ].
  split; [ | discriminate].
  destruct s as [ | c' s']; [discriminate | ].
  destruct (isspace c'); [discriminate | ].
  destruct (split (String c' s')); discriminate.
Qed.

Lemma strip_nonempty_words (s : string) :
  strip s <> "" -> exists w ws, split s = w :: ws.
Proof.
  intros H. destruct (split s) as [ | w ws] eqn:E; [ | eauto].
  exfalso. apply H, strip_empty, split_nil, E.
Qed.

Lemma strip_nonempty (s : string) : strip s <> "" -> py_not s = false.
Proof. destruct s; [intros H; exfalso; apply H | ]; reflexivity. Qed.

End Words.

(* ===================================================================== *)
(** * The word edit distance                                               *)
(* ===================================================================== *)

Section Levenshtein.

Lemma levenshtein_nil_l (h : list string) :
  levenshtein [] h = List.length h.
Proof. reflexivity. Qed.

Lemma levenshtein_nil_r (r : list string) :
  levenshtein r [] = List.length r.
Proof. destruct r; reflexivity. Qed.

(** The recurrence of the table. *)
Lemma levenshtein_cons (x y : string) (r h : list string) :
  levenshtein (x :: r) (y :: h) =
  Nat.min ((if String.eqb x y then 0 else 1) + levenshtein r h)
          (Nat.min (S (levenshtein r (y :: h))) (S (levenshtein (x :: r) h))).
Proof. reflexivity. Qed.

Lemma levenshtein_refl (l : list string) : levenshtein l l = 0%nat.
Proof.
  induction l as [ | w l IH]; [reflexivity | ].
  rewrite levenshtein_cons, String.eqb_refl, IH. reflexivity.
Qed.

(** The distance is the cost of some alignment ... *)
Lemma levenshtein_alignment (r h : list string) :
  alignment r h (levenshtein r h).
Proof.
  revert h. induction r as [ | x r IHr]; intros h.
  - induction h as [ | y h IHh]; [constructor | ].
    simpl in *. apply align_insertion, IHh.
  - induction h as [ | y h IHh].
    + rewrite levenshtein_nil_r. simpl.
      apply align_deletion. specialize (IHr []).
      rewrite levenshtein_nil_r in IHr. exact IHr.
    + rewrite levenshtein_cons.
      destruct (Nat.min_spec
                  ((if String.eqb x y then 0 else 1) + levenshtein r h)
                  (Nat.min (S (levenshtein r (y :: h)))
                           (S (levenshtein (x :: r) h))))
        as [[_ E] | [_ E]]; rewrite E; clear E.
      * destruct (String.eqb_spec x y) as [-> | _]; simpl.
        -- apply align_hit, IHr.
        -- apply align_substitution, IHr.
      * destruct (Nat.min_spec (S (levenshtein r (y :: h)))
                               (S (levenshtein (x :: r) h)))
          as [[_ E] | [_ E]]; rewrite E; clear E.
        -- apply align_deletion, IHr.
        -- apply align_insertion, IHh.
Qed.

(** ... and no alignment is cheaper. *)
Lemma levenshtein_least (r h : list string) (n : nat) :
  alignment r h n -> (levenshtein r h <= n)%nat.
Proof.
  induction 1 as [ | w r h n _ IH | x y r h n _ IH | x r h n _ IH
                   | y r h n _ IH].
  - simpl. lia.
  - rewrite levenshtein_cons, String.eqb_refl. simpl. lia.
  - rewrite levenshtein_cons. destruct (String.eqb x y); simpl; lia.
  - destruct h as [ | y h].
    + rewrite levenshtein_nil_r in *. simpl. lia.
    + rewrite levenshtein_cons. lia.
  - destruct r as [ | x r].
    + simpl in *. lia.
    + rewrite levenshtein_cons. lia.
Qed.

End Levenshtein.

(* ===================================================================== *)
(** * The scorer                                                           *)
(* ===================================================================== *)

Section Scorer.

Local Open Scope string_scope.

(** The value computed when both texts are non-empty and the reference
    has a word. *)
Lemma calculate_wer_words (r h : string) (w : string) (ws : list string) :
  py_not r = false -> py_not h = false -> split r = w :: ws ->
  calculate_wer r h =
  Returns (py_round (INR (levenshtein (split r) (split h))
                     / INR (List.length (split r)) * 100) 2).
Proof.
  intros Hr Hh Hs. unfold calculate_wer, jiwer_wer.
  rewrite Hr, Hh. simpl. rewrite Hs. reflexivity.
Qed.

(** The value returned when the reference has no word. *)
Lemma calculate_wer_no_reference_word (r h : string) :
  split r = [] -> calculate_wer r h = Returns 100.
Proof.
  intros Hs. unfold calculate_wer, jiwer_wer.
  destruct (py_not r || py_not h); [reflexivity | ].
  rewrite Hs. reflexivity.
Qed.

Lemma Returns_inj {A : Type} (a b : A) : Returns a = Returns b -> a = b.
Proof. intros H. injection H as H. exact H. Qed.

(** The distance never exceeds the longer of the two word lists. *)
Lemma levenshtein_le_max (r h : list string) :
  (levenshtein r h <= Nat.max (List.length r) (List.length h))%nat.
Proof.
  revert h. induction r as [ | x r IHr]; intros h; [simpl; lia | ].
  destruct h as [ | y h]; [rewrite levenshtein_nil_r; simpl; lia | ].
  rewrite levenshtein_cons. specialize (IHr h).
  destruct (String.eqb x y); simpl; lia.
Qed.

(** The range of the score: it is never negative, and it stays within 100
    when the hypothesis has no more words than the reference. *)
Lemma calculate_wer_range (r h : string) (v : R) :
  calculate_wer r h = Returns v ->
  0 <= v /\
  ((List.length (split h) <= List.length (split r))%nat -> v <= 100).
Proof.
  assert (E0 : py_round 0 2 = 0) by (apply (py_round_exact 0 2 0); lra).
  assert (E100 : py_round 100 2 = 100)
    by (apply (py_round_exact 100 2 10000); simpl; lra).
  intros Hv.
  destruct (py_not r) eqn:Nr.
  { unfold calculate_wer in Hv. rewrite Nr in Hv.
    apply Returns_inj in Hv; subst v. split; [lra | intros; lra]. }
  destruct (py_not h) eqn:Nh.
  { unfold calculate_wer in Hv. rewrite Nr, Nh in Hv.
    apply Returns_inj in Hv; subst v. split; [lra | intros; lra]. }
  destruct (split r) as [ | w ws] eqn:Er.
  { rewrite (calculate_wer_no_reference_word r h Er) in Hv.
    apply Returns_inj in Hv; subst v. split; [lra | intros; lra]. }
  rewrite (calculate_wer_words r h w ws Nr Nh Er), Er in Hv.
  apply Returns_inj in Hv; subst v.
  pose proof (levenshtein_le_max (w :: ws) (split h)) as Hmax.
  generalize dependent (levenshtein (w :: ws) (split h)). intros d Hmax.
  assert (Hn : 0 < INR (List.length (w :: ws)))
    by (apply lt_0_INR; simpl; lia).
  generalize dependent (List.length (w :: ws)). intros n Hmax Hn.
  assert (Hd : 0 <= INR d) by apply pos_INR.
  assert (H0 : 0 <= INR d / INR n * 100).
  { apply Rmult_le_pos; [ | lra].
    apply Rmult_le_pos; [exact Hd | left; apply Rinv_0_lt_compat, Hn]. }
  split.
  - apply Rle_trans with (py_round 0 2); [rewrite E0; lra | ].
    apply py_round_mono, H0.
  - intros Hlen.
    assert (Hdn : INR d <= INR n) by (apply le_INR; lia).
    apply Rle_trans with (py_round 100 2); [ | rewrite E100; lra].
    apply py_round_mono.
    pose proof (ratio_le_1 (INR d) (INR n) Hn Hdn). lra.
Qed.

End Scorer.

Section ScorerClaims.

Local Open Scope string_scope.

Ltac not_empty := let H := fresh in intro H; vm_compute in H; discriminate H.

Lemma py_round_2_of_ratio (d n : nat) (z : Z) :
  (0 < n)%nat -> (Z.of_nat d * 10000 = z * Z.of_nat n)%Z ->
  py_round (INR d / INR n * 100) 2 = IZR z / 100.
Proof.
  intros Hn Hz.
  assert (Hn' : 0 < INR n) by (apply lt_0_INR; exact Hn).
  assert (E : INR d / INR n * 100 = IZR z / 100).
  { apply (f_equal IZR) in Hz.
    rewrite !mult_IZR, <- !INR_IZR_INZ in Hz.
    field_simplify_eq; lra. }
  rewrite E. apply (py_round_exact _ 2 z). simpl. lra.
Qed.

(** C1 (evaluation of the code): a hypothesis with two words more than a
    one-word reference scores 200, outside the range 0-100 announced by
    the docstring of [calculate_wer].  Both texts are non-empty after
    trimming. *)
Theorem calculate_wer_exceeds_100 :
  strip "a" <> "" /\ strip "a b c" <> "" /\
  calculate_wer "a" "a b c" = Returns 200 /\ 100 < 200.
Proof.
  split; [not_empty | ]. split; [not_empty | ]. split; [ | lra].
  rewrite (calculate_wer_words "a" "a b c" "a" []) by reflexivity.
  replace (split "a") with ["a"] by reflexivity.
  replace (split "a b c") with ["a"; "b"; "c"] by reflexivity.
  replace (levenshtein ["a"] ["a"; "b"; "c"]) with 2%nat by reflexivity.
  cbn [List.length].
  rewrite (py_round_2_of_ratio 2 1 20000) by (simpl; lia).
  f_equal. lra.
Qed.

(** C4: [calculate_wer] returns for every pair of texts and never raises.
    For the texts as [load_text_files] hands them over, trimmed, it returns
    100 as soon as one of them is empty: the guard [not reference or not
    hypothesis] decides, and [jiwer.wer] is not called.  It returns 100 as
    well when the call to [jiwer.wer] raises, whatever the exception.  In
    particular it returns 100 when either argument is the empty string. *)
Theorem calculate_wer_never_raises (r h : string) :
  (exists v, calculate_wer r h = Returns v) /\
  (strip r = "" \/ strip h = "" ->
   calculate_wer (strip r) (strip h) = Returns 100) /\
  (forall e, jiwer_wer r h = Raises e -> calculate_wer r h = Returns 100) /\
  calculate_wer r "" = Returns 100 /\
  calculate_wer "" h = Returns 100.
Proof.
  split; [ | split; [ | split; [ | split]]].
  - unfold calculate_wer.
    destruct (py_not r || py_not h); [eauto | ].
    destruct (jiwer_wer r h); simpl; eauto.
  - intros [Hr | Hh]; unfold calculate_wer.
    + rewrite Hr. reflexivity.
    + rewrite Hh. simpl. rewrite orb_true_r. reflexivity.
  - intros e He. unfold calculate_wer.
    destruct (py_not r || py_not h); [reflexivity | ].
    rewrite He. reflexivity.
  - unfold calculate_wer. simpl. rewrite orb_true_r. reflexivity.
  - reflexivity.
Qed.

Lemma calculate_wer_never_raises_witness :
  (strip "  " = "" \/ strip "a b" = "") /\
  calculate_wer (strip "  ") (strip "a b") = Returns 100 /\
  calculate_wer "a b" "" = Returns 100 /\
  calculate_wer "" "a b" = Returns 100.
Proof.
  split; [left; reflexivity | ].
  split; [ | split].
  - exact (proj1 (proj2 (calculate_wer_never_raises "  " "a b"))
                 (or_introl eq_refl)).
  - exact (proj1 (proj2 (proj2 (proj2 (calculate_wer_never_raises "a b" "a"))))).
  - exact (proj2 (proj2 (proj2 (proj2 (calculate_wer_never_raises "a" "a b"))))).
Defined.

(** C6: for two texts that are non-empty after trimming, [calculate_wer]
    returns the least number of word substitutions, deletions and
    insertions that align the whitespace-split reference with the
    whitespace-split hypothesis, divided by the number of reference
    words, times 100, rounded to 2 decimals: the value returned is a whole
    number of hundredths, at most half a hundredth away from the
    percentage.  "the quick brown fox" against "the quick fox" scores 25;
    one edit over three words scores 33.33 and two edits over three words
    score 66.67. *)
Theorem calculate_wer_edit_distance (r h : string) :
  strip r <> "" -> strip h <> "" ->
  (exists (d n : nat) (z : Z),
      n = List.length (split r) /\ (0 < n)%nat /\
      alignment (split r) (split h) d /\
      (forall d', alignment (split r) (split h) d' -> (d <= d')%nat) /\
      calculate_wer r h = Returns (IZR z / 100) /\
      IZR z / 100 = py_round (INR d / INR n * 100) 2 /\
      Rabs (IZR z / 100 - INR d / INR n * 100) <= 5 / 1000) /\
  (r = "the quick brown fox" -> h = "the quick fox" ->
   calculate_wer r h = Returns 25) /\
  (r = "the quick brown" -> h = "the quick fox" ->
   calculate_wer r h = Returns (3333 / 100)) /\
  (r = "the quick brown" -> h = "the" ->
   calculate_wer r h = Returns (6667 / 100)).
Proof.
  intros Hr Hh. split; [ | split; [ | split]].
  - destruct (strip_nonempty_words r Hr) as (w & ws & Ew).
    exists (levenshtein (split r) (split h)), (List.length (split r)),
      (round_half_even
         (INR (levenshtein (split r) (split h))
          / INR (List.length (split r)) * 100 * 10 ^ 2)).
    assert (E : forall x : R,
               IZR (round_half_even (x * 10 ^ 2)) / 100 = py_round x 2).
    { intros x. unfold py_round. f_equal. simpl. lra. }
    split; [reflexivity | ].
    split; [rewrite Ew; simpl; lia | ].
    split; [apply levenshtein_alignment | ].
    split; [intros d'; apply levenshtein_least | ].
    rewrite E.
    split; [ | split; [reflexivity | ]].
    + apply (calculate_wer_words r h w ws);
        [apply strip_nonempty, Hr | apply strip_nonempty, Hh | exact Ew].
    + eapply Rle_trans; [apply py_round_error | ]. simpl. lra.
  - intros -> ->.
    rewrite (calculate_wer_words _ _ "the" ["quick"; "brown"; "fox"])
      by reflexivity.
    replace (split "the quick brown fox")
      with ["the"; "quick"; "brown"; "fox"] by reflexivity.
    replace (split "the quick fox") with ["the"; "quick"; "fox"]
      by reflexivity.
    replace (levenshtein ["the"; "quick"; "brown"; "fox"]
                         ["the"; "quick"; "fox"]) with 1%nat by reflexivity.
    cbn [List.length].
    rewrite (py_round_2_of_ratio 1 4 2500) by (simpl; lia).
    f_equal. lra.
  - intros -> ->.
    rewrite (calculate_wer_words _ _ "the" ["quick"; "brown"])
      by reflexivity.
    replace (split "the quick brown")
      with ["the"; "quick"; "brown"] by reflexivity.
    replace (split "the quick fox") with ["the"; "quick"; "fox"]
      by reflexivity.
    replace (levenshtein ["the"; "quick"; "brown"]
                         ["the"; "quick"; "fox"]) with 1%nat by reflexivity.
    cbn [List.length].
    rewrite (py_round_down _ 2 3333) by (simpl; lra).
    f_equal. simpl. lra.
  - intros -> ->.
    rewrite (calculate_wer_words _ _ "the" ["quick"; "brown"])
      by reflexivity.
    replace (split "the quick brown")
      with ["the"; "quick"; "brown"] by reflexivity.
    replace (split "the") with ["the"] by reflexivity.
    replace (levenshtein ["the"; "quick"; "brown"] ["the"])
      with 2%nat by reflexivity.
    cbn [List.length].
    rewrite (py_round_up _ 2 6666) by (simpl; lra).
    f_equal. simpl. lra.
Qed.

Lemma calculate_wer_edit_distance_witness :
  strip "the quick brown" <> "" /\ strip "the quick fox" <> "" /\
  strip "the" <> "" /\
  calculate_wer "the quick brown" "the quick fox" = Returns (3333 / 100) /\
  calculate_wer "the quick brown" "the" = Returns (6667 / 100).
Proof.
  assert (Hr : strip "the quick brown" <> "") by not_empty.
  assert (Hh : strip "the quick fox" <> "") by not_empty.
  assert (Ht : strip "the" <> "") by not_empty.
  split; [exact Hr | ]. split; [exact Hh | ]. split; [exact Ht | ].
  split.
  - exact (proj1 (proj2 (proj2 (calculate_wer_edit_distance _ _ Hr Hh)))
                 eq_refl eq_refl).
  - exact (proj2 (proj2 (proj2 (calculate_wer_edit_distance _ _ Hr Ht)))
                 eq_refl eq_refl).
Defined.

(** C8: a text that is non-empty after trimming scores 0 against
    itself. *)
Theorem calculate_wer_identical (r : string) :
  strip r <> "" -> calculate_wer r r = Returns 0.
Proof.
  intros Hr.
  destruct (strip_nonempty_words r Hr) as (w & ws & Ew).
  pose proof (strip_nonempty r Hr) as Nr.
  rewrite (calculate_wer_words r r w ws Nr Nr Ew), levenshtein_refl, Ew.
  rewrite (py_round_2_of_ratio 0 _ 0) by (simpl; lia).
  f_equal. lra.
Qed.

Lemma calculate_wer_identical_witness :
  strip "the quick brown fox" <> "" /\
  calculate_wer "the quick brown fox" "the quick brown fox" = Returns 0.
Proof.
  assert (Hr : strip "the quick brown fox" <> "") by not_empty.
  split; [exact Hr | ].
  exact (calculate_wer_identical "the quick brown fox" Hr).
Defined.

End ScorerClaims.

(* ===================================================================== *)
(** * The reductions on small and on large series                          *)
(* ===================================================================== *)

(** Case analysis on every comparison of reals in the goal. *)
Ltac decide_R :=
  repeat match goal with
         | |- context [Rle_dec ?a ?b] => destruct (Rle_dec a b); try lra
         | |- context [Rlt_dec ?a ?b] => destruct (Rlt_dec a b); try lra
         end.

(** The count of a category over a series of numerals. *)
Ltac band_count :=
  unfold mask_sum, is_excellent, is_good, is_fair, is_poor, Rleb, Rltb;
  cbn [filter]; decide_R; reflexivity.

Section Reductions.

Lemma Rleb_true (x y : R) : x <= y -> Rleb x y = true.
Proof. intros H. unfold Rleb. decide_R; try reflexivity. Qed.

Lemma Rleb_false (x y : R) : y < x -> Rleb x y = false.
Proof. intros H. unfold Rleb. decide_R; try reflexivity. Qed.

Lemma Rltb_true (x y : R) : x < y -> Rltb x y = true.
Proof. intros H. unfold Rltb. decide_R; try reflexivity. Qed.

Lemma Rltb_false (x y : R) : y <= x -> Rltb x y = false.
Proof. intros H. unfold Rltb. decide_R; try reflexivity. Qed.

Lemma fpos_Fin (x : R) : fpos (Fin x) = true <-> 0 < x.
Proof.
  unfold fpos. destruct (Rlt_dec 0 x); split; intros; try assumption;
    try reflexivity; try discriminate; contradiction.
Qed.

Lemma len_cons (x : R) (s : Series) : len (x :: s) = S (len s).
Proof. reflexivity. Qed.

Lemma pd_mean_singleton (x : R) : pd_mean [x] = Fin x.
Proof. unfold pd_mean, Rsum, len. simpl. f_equal. field. Qed.

Lemma np_sort_singleton (x : R) : np_sort [x] = [x].
Proof. reflexivity. Qed.

Lemma pd_median_singleton (x : R) : pd_median [x] = Fin x.
Proof. reflexivity. Qed.

Lemma pd_quantile_singleton (x q : R) : pd_quantile [x] q = Fin x.
Proof.
  unfold pd_quantile, len. simpl List.length.
  assert (E : Zfloor ((INR 1 - 1) * q) = 0%Z)
    by (apply Zfloor_eq; simpl; lra).
  rewrite E. simpl. f_equal. lra.
Qed.

Lemma pd_var_short (s : Series) : (len s <= 1)%nat -> pd_var s = NaN.
Proof.
  intros H. unfold pd_var.
  destruct (Nat.leb_spec (len s) 1); [reflexivity | lia].
Qed.

Lemma pd_var_long (s : Series) :
  (2 <= len s)%nat -> pd_var s = Fin (moment_sum 2 s / (INR (len s) - 1)).
Proof.
  intros H. unfold pd_var.
  destruct (Nat.leb_spec (len s) 1); [lia | reflexivity].
Qed.

Lemma pd_mean_nonempty (s : Series) :
  (1 <= len s)%nat -> pd_mean s = Fin (Rsum s / INR (len s)).
Proof. destruct s; simpl; [lia | reflexivity]. Qed.

(** The standard error is a non-negative real from two values on. *)
Lemma pd_sem_long (s : Series) :
  (2 <= len s)%nat ->
  exists e, pd_sem s = Fin e /\ 0 <= e /\
            e = sqrt (moment_sum 2 s / (INR (len s) - 1)) / sqrt (INR (len s)).
Proof.
  intros H. unfold pd_sem. rewrite (pd_var_long s H). simpl.
  eexists. split; [reflexivity | ]. split; [ | reflexivity].
  assert (0 < INR (len s)) by (apply lt_0_INR; lia).
  apply Rmult_le_pos; [apply sqrt_pos | ].
  left. apply Rinv_0_lt_compat, sqrt_lt_R0. assumption.
Qed.

(** Every value lies in exactly one performance category. *)
Lemma band_partition (x : R) :
  (Nat.b2n (is_excellent x) + Nat.b2n (is_good x) +
   Nat.b2n (is_fair x) + Nat.b2n (is_poor x) = 1)%nat.
Proof.
  unfold is_excellent, is_good, is_fair, is_poor, Rleb, Rltb.
  decide_R; try reflexivity.
Qed.

Lemma mask_sum_cons (p : R -> bool) (x : R) (s : Series) :
  mask_sum p (x :: s) = (Nat.b2n (p x) + mask_sum p s)%nat.
Proof. unfold mask_sum. simpl. destruct (p x); reflexivity. Qed.

(** The four counts add up to the length of the series. *)
Lemma band_counts_total (s : Series) :
  (mask_sum is_excellent s + mask_sum is_good s +
   mask_sum is_fair s + mask_sum is_poor s = len s)%nat.
Proof.
  induction s as [ | x s IH]; [reflexivity | ].
  rewrite !mask_sum_cons, len_cons.
  pose proof (band_partition x). lia.
Qed.

Lemma band_pct_nonempty (p : R -> bool) (s : Series) :
  (1 <= len s)%nat ->
  band_pct p s = Fin (INR (mask_sum p s) / INR (len s) * 100).
Proof.
  intros H. unfold band_pct, np_true_divide.
  destruct (len s); [lia | reflexivity].
Qed.

End Reductions.

(* ===================================================================== *)
(** * The statistics of a model                                            *)
(* ===================================================================== *)

Section Statistics.

Ltac entries :=
  cbn [round_floats stats_literal round_entry
       Stats.count Stats.mean Stats.median Stats.std Stats.variance
       Stats.min Stats.max Stats.range Stats.q1 Stats.q3 Stats.iqr
       Stats.p5 Stats.p95 Stats.skewness Stats.kurtosis Stats.cv Stats.sem
       Stats.ci_95_lower Stats.ci_95_upper
       Stats.excellent_count Stats.good_count Stats.fair_count
       Stats.poor_count Stats.excellent_pct Stats.good_pct Stats.fair_pct
       Stats.poor_pct].

(** C2 (the code on the empty series): [calculate_statistics] raises no
    [InsufficientDataError] on an empty series; it returns a dictionary
    whose mean is not-a-number. *)
Lemma empty_series_returns_nan :
  calculate_statistics [] <> Raises InsufficientDataError /\
  exists s, calculate_statistics [] = Returns s /\ Stats.mean s = NaN.
Proof.
  split; [discriminate | ].
  eexists. split; reflexivity.
Qed.

(** C2 (amended): on an empty series [calculate_statistics] returns the
    dictionary with count 0, the four category counts 0, [cv] equal to the
    integer 0 and every other entry not-a-number; the empty table is
    turned away before the call by [analyze_single_model], which returns
    the empty dictionary for a table without rows or without a [wer]
    column and the statistics otherwise. *)
Theorem calculate_statistics_empty :
  calculate_statistics [] = Returns empty_stats /\
  (forall name file, analyze_single_model (Some []) name file = Returns None) /\
  (forall name file, analyze_single_model None name file = Returns None) /\
  (forall x s name file,
      analyze_single_model (Some (x :: s)) name file =
      Returns (Some (mk_row name file (round_floats (stats_literal (x :: s)))))).
Proof.
  split; [reflexivity | ].
  split; [reflexivity | ].
  split; reflexivity.
Qed.

(** C10: for a series of one value [x], the entries [std], [variance],
    [sem], [ci_95_lower], [ci_95_upper], [skewness] and [kurtosis] are
    not-a-number; the count is 1, the mean, median, minimum, maximum and
    the four quantiles are [x] rounded to 4 decimals, the category counts
    add up to 1 and the category percentages are finite. *)
Theorem calculate_statistics_singleton (x : R) :
  exists s,
    calculate_statistics [x] = Returns s /\
    Stats.std s = NaN /\ Stats.variance s = NaN /\ Stats.sem s = NaN /\
    Stats.ci_95_lower s = NaN /\ Stats.ci_95_upper s = NaN /\
    Stats.skewness s = NaN /\ Stats.kurtosis s = NaN /\
    Stats.count s = 1%nat /\
    Stats.mean s = Fin (py_round x 4) /\
    Stats.median s = Fin (py_round x 4) /\
    Stats.min s = Fin (py_round x 4) /\
    Stats.max s = Fin (py_round x 4) /\
    Stats.q1 s = Fin (py_round x 4) /\
    Stats.q3 s = Fin (py_round x 4) /\
    Stats.p5 s = Fin (py_round x 4) /\
    Stats.p95 s = Fin (py_round x 4) /\
    (Stats.excellent_count s + Stats.good_count s +
     Stats.fair_count s + Stats.poor_count s = 1)%nat /\
    is_nan (Stats.excellent_pct s) = false /\
    is_nan (Stats.good_pct s) = false /\
    is_nan (Stats.fair_pct s) = false /\
    is_nan (Stats.poor_pct s) = false.
Proof.
  eexists. split; [reflexivity | ]. entries.
  rewrite !pd_quantile_singleton, pd_mean_singleton, pd_median_singleton.
  repeat (split; [reflexivity | ]).
  split; [exact (band_counts_total [x]) | ].
  repeat split; reflexivity.
Qed.

(** C5 (the code on three values, one per category): each percentage is
    returned as 33.3333 and the four add up to 99.9999, which is further
    than 1e-6 from 100. *)
Lemma rounded_pct_total_off :
  exists s t,
    calculate_statistics [5; 15; 25] = Returns s /\
    pct_total s = Fin t /\
    t = 999999 / 10000 /\
    ~ Rabs (t - 100) <= 1 / 1000000.
Proof.
  eexists. exists (999999 / 10000).
  split; [reflexivity | ].
  split.
  - unfold pct_total. entries.
    rewrite !band_pct_nonempty by (simpl; lia).
    assert (E1 : mask_sum is_excellent [5; 15; 25] = 1%nat) by band_count.
    assert (E2 : mask_sum is_good [5; 15; 25] = 1%nat) by band_count.
    assert (E3 : mask_sum is_fair [5; 15; 25] = 1%nat) by band_count.
    assert (E4 : mask_sum is_poor [5; 15; 25] = 0%nat) by band_count.
    rewrite E1, E2, E3, E4.
    unfold fround, lift1, fadd, lift2, len. cbn [List.length].
    assert (T : py_round (INR 1 / INR 3 * 100) 4 = 333333 / 10 ^ 4).
    { apply py_round_down. simpl. lra. }
    rewrite T, (py_round_exact _ 4 0) by (simpl; lra).
    f_equal. simpl. lra.
  - split; [reflexivity | ].
    intros H. apply Rabs_le_between in H. lra.
Qed.

(** C5 (amended): for a non-empty series every value lies in exactly one
    of the four categories, the four counts add up to the count of the
    dictionary, which is the length of the series, and the four
    percentages, each rounded to 4 decimals, add up to 100 within
    0.0002. *)
Theorem band_counts_partition (l : Series) :
  l <> [] ->
  exists s,
    calculate_statistics l = Returns s /\
    (forall x : R,
        (Nat.b2n (is_excellent x) + Nat.b2n (is_good x) +
         Nat.b2n (is_fair x) + Nat.b2n (is_poor x) = 1)%nat) /\
    (Stats.excellent_count s + Stats.good_count s +
     Stats.fair_count s + Stats.poor_count s = Stats.count s)%nat /\
    Stats.count s = len l /\
    exists t, pct_total s = Fin t /\ Rabs (t - 100) <= 2 / 10000.
Proof.
  intros Hl.
  assert (Hn : (1 <= len l)%nat) by (destruct l; [congruence | simpl; lia]).
  eexists. split; [reflexivity | ].
  split; [exact band_partition | ].
  split; [exact (band_counts_total l) | ].
  split; [reflexivity | ].
  unfold pct_total. entries.
  rewrite !band_pct_nonempty by exact Hn.
  eexists. split; [reflexivity | ].
  pose proof (band_counts_total l) as Ht.
  apply (f_equal INR) in Ht. rewrite !plus_INR in Ht.
  assert (Hp : 0 < INR (len l)) by (apply lt_0_INR; lia).
  set (a := INR (mask_sum is_excellent l) / INR (len l) * 100).
  set (b := INR (mask_sum is_good l) / INR (len l) * 100).
  set (c := INR (mask_sum is_fair l) / INR (len l) * 100).
  set (d := INR (mask_sum is_poor l) / INR (len l) * 100).
  assert (Hs : a + b + c + d = 100).
  { unfold a, b, c, d.
    replace (INR (mask_sum is_excellent l) / INR (len l) * 100 +
             INR (mask_sum is_good l) / INR (len l) * 100 +
             INR (mask_sum is_fair l) / INR (len l) * 100 +
             INR (mask_sum is_poor l) / INR (len l) * 100)
      with ((INR (mask_sum is_excellent l) + INR (mask_sum is_good l) +
             INR (mask_sum is_fair l) + INR (mask_sum is_poor l))
            / INR (len l) * 100) by (field; lra).
    rewrite Ht. field. lra. }
  pose proof (py_round_error a 4) as Ea. apply Rabs_le_between in Ea.
  pose proof (py_round_error b 4) as Eb. apply Rabs_le_between in Eb.
  pose proof (py_round_error c 4) as Ec. apply Rabs_le_between in Ec.
  pose proof (py_round_error d 4) as Ed. apply Rabs_le_between in Ed.
  simpl pow in Ea, Eb, Ec, Ed.
  apply Rabs_le. lra.
Qed.

Lemma band_counts_partition_witness :
  exists s,
    calculate_statistics [5; 8; 12; 22; 35] = Returns s /\
    (Stats.excellent_count s + Stats.good_count s +
     Stats.fair_count s + Stats.poor_count s = 5)%nat /\
    exists t, pct_total s = Fin t /\ Rabs (t - 100) <= 2 / 10000.
Proof.
  assert (H : [5; 8; 12; 22; 35] <> []) by discriminate.
  destruct (band_counts_partition [5; 8; 12; 22; 35] H)
    as (s & Hs & _ & Hc & Hn & Ht).
  exists s. split; [exact Hs | ]. split; [ | exact Ht].
  rewrite Hc, Hn. reflexivity.
Defined.

(** The scenario of five scores 5, 8, 12, 22, 35: two excellent, one good,
    one fair, one poor, and a mean of 16.4. *)
Example calculate_statistics_five_scores :
  exists s,
    calculate_statistics [5; 8; 12; 22; 35] = Returns s /\
    Stats.count s = 5%nat /\
    Stats.excellent_count s = 2%nat /\ Stats.good_count s = 1%nat /\
    Stats.fair_count s = 1%nat /\ Stats.poor_count s = 1%nat /\
    Stats.mean s = Fin (164 / 10).
Proof.
  eexists. split; [reflexivity | ]. entries.
  split; [reflexivity | ].
  split; [band_count | ]. split; [band_count | ].
  split; [band_count | ]. split; [band_count | ].
  unfold pd_mean, fround, lift1, Rsum, len. cbn [fold_right List.length].
  f_equal.
  replace ((5 + (8 + (12 + (22 + (35 + 0))))) / INR 5) with (164 / 10)
    by (simpl; lra).
  apply (py_round_exact _ 4 164000). simpl. lra.
Qed.

(** C7 (the code on one value): both bounds of the confidence interval
    are not-a-number, so [ci_95_lower <= mean] does not hold. *)
Lemma singleton_interval_undefined :
  exists s,
    calculate_statistics [5] = Returns s /\
    Stats.ci_95_lower s = NaN /\ Stats.ci_95_upper s = NaN /\
    ~ fle (Stats.ci_95_lower s) (Stats.mean s) /\
    ~ fle (Stats.mean s) (Stats.ci_95_upper s).
Proof.
  eexists. split; [reflexivity | ]. entries.
  rewrite pd_mean_singleton.
  split; [reflexivity | ]. split; [reflexivity | ].
  split; intros H; exact H.
Qed.

(** C7 (amended): for a series of at least two values, with [m] its mean,
    the variance is the sum of the squared deviations from [m] over
    [n - 1], the standard deviation is its square root, the standard
    error is the standard deviation over the square root of [n], and the
    bounds of the interval are [m - 1.96 * sem] and [m + 1.96 * sem]; each
    entry is returned rounded to 4 decimals, and
    [ci_95_lower <= mean <= ci_95_upper] holds in the dictionary. *)
Theorem confidence_interval (l : Series) :
  (2 <= len l)%nat ->
  exists s m v e,
    calculate_statistics l = Returns s /\
    m = Rsum l / INR (len l) /\
    v = Rsum (map (fun x => (x - m) ^ 2) l) / (INR (len l) - 1) /\
    e = sqrt v / sqrt (INR (len l)) /\
    pd_mean l = Fin m /\ pd_var l = Fin v /\
    pd_std l = Fin (sqrt v) /\ pd_sem l = Fin e /\
    Stats.mean s = Fin (py_round m 4) /\
    Stats.variance s = Fin (py_round v 4) /\
    Stats.std s = Fin (py_round (sqrt v) 4) /\
    Stats.sem s = Fin (py_round e 4) /\
    Stats.ci_95_lower s = Fin (py_round (m - 196 / 100 * e) 4) /\
    Stats.ci_95_upper s = Fin (py_round (m + 196 / 100 * e) 4) /\
    fle (Stats.ci_95_lower s) (Stats.mean s) /\
    fle (Stats.mean s) (Stats.ci_95_upper s).
Proof.
  intros Hn.
  destruct (pd_sem_long l Hn) as (e & He & Hpos & Hdef).
  assert (Hm : pd_mean l = Fin (Rsum l / INR (len l)))
    by (apply pd_mean_nonempty; lia).
  pose proof (pd_var_long l Hn) as Hv.
  assert (Hstd : pd_std l =
                 Fin (sqrt (moment_sum 2 l / (INR (len l) - 1))))
    by (unfold pd_std; rewrite Hv; reflexivity).
  exists (round_floats (stats_literal l)), (Rsum l / INR (len l)),
    (moment_sum 2 l / (INR (len l) - 1)), e.
  split; [reflexivity | ]. entries.
  rewrite Hm, Hv, Hstd, He. cbn [fround lift1 fsub fadd fmul lift2 fle].
  repeat (split; [first [reflexivity | exact Hdef] | ]).
  split; apply py_round_mono; lra.
Qed.

Lemma confidence_interval_witness :
  exists s,
    calculate_statistics [5; 8; 12; 22; 35] = Returns s /\
    fle (Stats.ci_95_lower s) (Stats.mean s) /\
    fle (Stats.mean s) (Stats.ci_95_upper s).
Proof.
  assert (H : Nat.le 2 (len [5; 8; 12; 22; 35])) by (simpl; lia).
  destruct (confidence_interval [5; 8; 12; 22; 35] H)
    as (s & m & v & e & Hs & _ & _ & _ & _ & _ & _ & _ & _ & _ & _ & _ & _ & _
        & Hlo & Hhi).
  exists s. split; [exact Hs | ]. split; [exact Hlo | exact Hhi].
Defined.

Lemma sqrt_2_bounds : 1414213 / 1000000 < sqrt 2 < 1414214 / 1000000.
Proof.
  split.
  - rewrite <- (sqrt_square (1414213 / 1000000)) by lra.
    apply sqrt_lt_1_alt. lra.
  - rewrite <- (sqrt_square (1414214 / 1000000)) by lra.
    apply sqrt_lt_1_alt. lra.
Qed.

(** The [cv] entry before and after the rounding loop, for a series of at
    least two values with a positive mean. *)
Lemma cv_long (l : Series) :
  (2 <= len l)%nat -> 0 < Rsum l / INR (len l) ->
  Stats.cv (stats_literal l) =
    Float (Fin (sqrt (moment_sum 2 l / (INR (len l) - 1))
                / (Rsum l / INR (len l)) * 100)) /\
  Stats.cv (round_floats (stats_literal l)) =
    Float (Fin (py_round (sqrt (moment_sum 2 l / (INR (len l) - 1))
                          / (Rsum l / INR (len l)) * 100) 4)).
Proof.
  intros Hn Hpos. entries. unfold pd_std.
  rewrite (pd_mean_nonempty l) by lia. rewrite (pd_var_long l Hn).
  assert (E : fpos (Fin (Rsum l / INR (len l))) = true)
    by (apply fpos_Fin; exact Hpos).
  rewrite E. split; reflexivity.
Qed.

(** C9: the [cv] entry computed by [calculate_statistics] is the standard
    deviation over the mean, times 100, when the mean of the series is
    strictly positive: with [m] the mean and [v] the sum of the squared
    deviations from [m] over [n - 1], it is [sqrt v / m * 100] for a series
    of at least two values, returned rounded to 4 decimals like every
    float entry, and not-a-number for a single positive value, whose
    standard deviation is undefined.  It is the integer 0 when the mean is
    not strictly positive (zero, negative, or not-a-number for the empty
    series).  For the scores 1 and 3 it is 70.7107. *)
Theorem coefficient_of_variation (l : Series) :
  exists s,
    calculate_statistics l = Returns s /\
    (forall m v,
       (2 <= len l)%nat ->
       m = Rsum l / INR (len l) ->
       v = Rsum (map (fun x => (x - m) ^ 2) l) / (INR (len l) - 1) ->
       0 < m ->
       Stats.cv (stats_literal l) = Float (Fin (sqrt v / m * 100)) /\
       Stats.cv s = Float (Fin (py_round (sqrt v / m * 100) 4))) /\
    (forall x, l = [x] -> 0 < x ->
       Stats.cv (stats_literal l) = Float NaN /\ Stats.cv s = Float NaN) /\
    (l = [] \/ Rsum l / INR (len l) <= 0 ->
       Stats.cv (stats_literal l) = Int 0 /\ Stats.cv s = Int 0) /\
    (l = [1; 3] -> Stats.cv s = Float (Fin (707107 / 10000))).
Proof.
  exists (round_floats (stats_literal l)). split; [reflexivity | ].
  split; [ | split; [ | split]].
  - intros m v Hn Hm Hv Hpos. subst m v. exact (cv_long l Hn Hpos).
  - intros x -> Hx. entries. rewrite pd_mean_singleton.
    assert (E : fpos (Fin x) = true) by (apply fpos_Fin; exact Hx).
    rewrite E. split; reflexivity.
  - intros H. entries.
    assert (E : fpos (pd_mean l) = false).
    { destruct H as [-> | Hle]; [reflexivity | ].
      destruct l as [ | x l]; [reflexivity | ].
      rewrite pd_mean_nonempty by (simpl; lia).
      destruct (fpos (Fin (Rsum (x :: l) / INR (len (x :: l))))) eqn:F;
        [ | reflexivity].
      apply fpos_Fin in F. lra. }
    rewrite E. split; reflexivity.
  - intros ->.
    assert (Hn : Nat.le 2 (len [1; 3])) by (simpl; lia).
    assert (Em : Rsum [1; 3] / INR (len [1; 3]) = 2) by (simpl; lra).
    assert (Ev : moment_sum 2 [1; 3] / (INR (len [1; 3]) - 1) = 2).
    { unfold moment_sum. rewrite Em. simpl. lra. }
    assert (Hpos : 0 < Rsum [1; 3] / INR (len [1; 3])) by (rewrite Em; lra).
    rewrite (proj2 (cv_long [1; 3] Hn Hpos)), Em, Ev.
    pose proof sqrt_2_bounds as [Hlo Hhi].
    rewrite (py_round_up _ 4 707106) by (simpl; lra).
    do 2 f_equal. simpl. lra.
Qed.

Lemma coefficient_of_variation_witness :
  (exists s,
      calculate_statistics [1; 3] = Returns s /\
      Stats.cv s = Float (Fin (py_round (sqrt 2 / 2 * 100) 4)) /\
      Stats.cv s = Float (Fin (707107 / 10000))) /\
  (exists s, calculate_statistics [5] = Returns s /\ Stats.cv s = Float NaN) /\
  (exists s, calculate_statistics [0; 0] = Returns s /\ Stats.cv s = Int 0).
Proof.
  split; [ | split].
  - destruct (coefficient_of_variation [1; 3]) as (s & Hs & Hlong & _ & _ & Hnum).
    exists s. split; [exact Hs | ]. split; [ | exact (Hnum eq_refl)].
    apply (Hlong 2 2).
    + simpl. lia.
    + simpl. lra.
    + simpl. lra.
    + lra.
  - destruct (coefficient_of_variation [5]) as (s & Hs & _ & Hone & _).
    exists s. split; [exact Hs | ].
    apply (Hone 5 eq_refl). lra.
  - destruct (coefficient_of_variation [0; 0]) as (s & Hs & _ & _ & Hzero & _).
    exists s. split; [exact Hs | ].
    apply Hzero. right. simpl. lra.
Defined.

End Statistics.

(* ===================================================================== *)
(** * The ranking of the models                                            *)
(* ===================================================================== *)

Section QuicksortFacts.

Variable less : nat -> nat -> bool.

Lemma store_length (i x : nat) (a : list nat) :
  List.length (store i x a) = List.length a.
Proof.
  revert i. induction a as [ | y a IH]; intros [ | i]; simpl; try reflexivity.
  rewrite IH. reflexivity.
Qed.

Lemma store_perm (i x : nat) (a : list nat) :
  (i < List.length a)%nat ->
  Permutation (nth i a O :: store i x a) (x :: a).
Proof.
  revert i. induction a as [ | y a IH]; intros [ | i] Hi; simpl in *; try lia.
  - apply perm_swap.
  - apply perm_trans with (y :: nth i a O :: store i x a); [apply perm_swap | ].
    apply perm_trans with (y :: x :: a); [ | apply perm_swap].
    apply perm_skip, IH. lia.
Qed.

Lemma nth_store (i x : nat) (a : list nat) :
  (i < List.length a)%nat -> nth i (store i x a) O = x.
Proof.
  revert i. induction a as [ | y a IH]; intros [ | i] Hi; simpl in *; try lia.
  apply IH. lia.
Qed.

Lemma nth_store_other (i j x : nat) (a : list nat) :
  i <> j -> nth j (store i x a) O = nth j a O.
Proof.
  revert i j. induction a as [ | y a IH]; intros [ | i] [ | j] H; simpl;
    try reflexivity; try congruence.
  apply IH. congruence.
Qed.

Lemma INTP_SWAP_perm (i j : nat) (a : list nat) :
  Permutation (INTP_SWAP i j a) a.
Proof.
  unfold INTP_SWAP.
  destruct (Nat.ltb_spec i (List.length a)) as [Hi | Hi]; [ | reflexivity].
  destruct (Nat.ltb_spec j (List.length a)) as [Hj | Hj]; [ | reflexivity].
  cbn [andb].
  assert (Hj' : (j < List.length (store i (nth j a O) a))%nat)
    by (rewrite store_length; exact Hj).
  pose proof (store_perm j (nth i a O) _ Hj') as H1.
  pose proof (store_perm i (nth j a O) a Hi) as H2.
  assert (E : nth j (store i (nth j a O) a) O = nth j a O).
  { destruct (Nat.eq_dec i j) as [-> | Hne].
    - apply nth_store, Hj.
    - apply nth_store_other, Hne. }
  rewrite E in H1.
  apply (Permutation_cons_inv (a := nth j a O)).
  rewrite H1, H2. reflexivity.
Qed.

Lemma cond_swap_perm (b : bool) (i j : nat) (a : list nat) :
  Permutation (if b then INTP_SWAP i j a else a) a.
Proof. destruct b; [apply INTP_SWAP_perm | reflexivity]. Qed.

Lemma partition_loop_perm (fuel : nat) (a : list nat) (vp pi pj : nat) :
  Permutation (fst (partition_loop less fuel a vp pi pj)) a.
Proof.
  revert a pi pj. induction fuel as [ | fuel IH]; intros a pi pj;
    cbn [partition_loop]; [reflexivity | ].
  destruct (_ <=? _)%nat; [reflexivity | ].
  rewrite IH. apply INTP_SWAP_perm.
Qed.

Lemma partition_perm (a : list nat) (pl pr : nat) :
  Permutation (fst (partition less a pl pr)) a.
Proof.
  unfold partition.
  set (pm := (pl + (pr - pl) / 2)%nat).
  set (a1 := if less (nth pm a O) (nth pl a O) then INTP_SWAP pm pl a else a).
  set (a2 := if less (nth pr a1 O) (nth pm a1 O) then INTP_SWAP pr pm a1 else a1).
  set (a3 := if less (nth pm a2 O) (nth pl a2 O) then INTP_SWAP pm pl a2 else a2).
  assert (H1 : Permutation a1 a) by apply cond_swap_perm.
  assert (H2 : Permutation a2 a1) by apply cond_swap_perm.
  assert (H3 : Permutation a3 a2) by apply cond_swap_perm.
  pose proof (partition_loop_perm (List.length (INTP_SWAP pm (pr - 1) a3))
                (INTP_SWAP pm (pr - 1) a3) (nth pm a3 O) pl (pr - 1)) as H4.
  destruct (partition_loop less _ _ _ _ _) as [a4 pi]. cbn [fst] in *.
  rewrite INTP_SWAP_perm, H4, INTP_SWAP_perm, H3, H2, H1. reflexivity.
Qed.

Lemma quicksort_partitions_perm (fuel : nat) (a : list nat) (pl pr : nat) :
  Permutation (quicksort_partitions less fuel a pl pr) a.
Proof.
  revert a pl pr. induction fuel as [ | fuel IH]; intros a pl pr;
    cbn [quicksort_partitions]; [reflexivity | ].
  destruct (SMALL_QUICKSORT <? pr - pl)%nat; [ | reflexivity].
  pose proof (partition_perm a pl pr) as Hp.
  destruct (partition less a pl pr) as [a' pi]. cbn [fst] in Hp.
  destruct (_ <? _)%nat; rewrite !IH; exact Hp.
Qed.

Lemma insert_left_perm (vi : nat) (left : list nat) :
  Permutation (insert_left less vi left) (vi :: left).
Proof.
  induction left as [ | vk left IH]; cbn [insert_left]; [reflexivity | ].
  destruct (less vi vk); [ | reflexivity].
  rewrite IH. apply perm_swap.
Qed.

Lemma fold_insert_left_perm (a left : list nat) :
  Permutation (fold_left (fun left vi => insert_left less vi left) a left)
              (a ++ left).
Proof.
  revert left. induction a as [ | vi a IH]; intros left; cbn [fold_left];
    [reflexivity | ].
  rewrite IH, insert_left_perm. cbn [app]. symmetry. apply Permutation_middle.
Qed.

Lemma insertion_sort_perm (a : list nat) :
  Permutation (insertion_sort less a) a.
Proof.
  unfold insertion_sort. rewrite <- Permutation_rev.
  rewrite fold_insert_left_perm, app_nil_r. reflexivity.
Qed.

(** numpy's quicksort returns a reordering of the indices. *)
Lemma aquicksort_perm (num : nat) :
  Permutation (aquicksort less num) (seq 0 num).
Proof.
  unfold aquicksort. rewrite insertion_sort_perm.
  apply quicksort_partitions_perm.
Qed.

(** An array of at most 17 entries is sorted by insertion alone. *)
Lemma aquicksort_small (num : nat) :
  (num <= 17)%nat -> aquicksort less num = insertion_sort less (seq 0 num).
Proof.
  intros H. unfold aquicksort. destruct num as [ | n]; [reflexivity | ].
  cbn [quicksort_partitions]. unfold SMALL_QUICKSORT.
  destruct (Nat.ltb_spec 16 (S n - 1 - 0)); [lia | reflexivity].
Qed.

Variable valid : nat -> Prop.

Hypothesis less_asym :
  forall x y, valid x -> valid y -> less x y = true -> less y x = false.

Hypothesis less_trans :
  forall x y z, valid x -> valid y -> valid z ->
    less x y = false -> less y z = false -> less x z = false.

Lemma insert_left_sorted (vi : nat) (left : list nat) :
  valid vi -> Forall valid left -> StronglySorted (fun x y => less x y = false) left ->
  StronglySorted (fun x y => less x y = false) (insert_left less vi left).
Proof.
  intros Hv Hall Hs. induction Hs as [ | vk left Hs IH Hk];
    cbn [insert_left]; [repeat constructor | ].
  apply Forall_cons_iff in Hall as [Hvk Hall].
  destruct (less vi vk) eqn:E.
  - constructor; [apply IH, Hall | ].
    apply (Permutation_Forall (Permutation_sym (insert_left_perm vi left))).
    constructor; [exact (less_asym vi vk Hv Hvk E) | exact Hk].
  - constructor; [constructor; assumption | ].
    constructor; [exact E | ].
    rewrite Forall_forall in *. intros z Hz.
    exact (less_trans vi vk z Hv Hvk (Hall z Hz) E (Hk z Hz)).
Qed.

Lemma fold_insert_left_sorted (a left : list nat) :
  Forall valid a -> Forall valid left -> StronglySorted (fun x y => less x y = false) left ->
  StronglySorted (fun x y => less x y = false) (fold_left (fun left vi => insert_left less vi left) a left).
Proof.
  revert left. induction a as [ | vi a IH]; intros left Ha Hl Hs;
    cbn [fold_left]; [exact Hs | ].
  apply Forall_cons_iff in Ha as [Hvi Ha].
  apply IH; [exact Ha | | apply insert_left_sorted; assumption].
  apply (Permutation_Forall (Permutation_sym (insert_left_perm vi left))).
  constructor; assumption.
Qed.

Lemma StronglySorted_rev {A : Type} (R : A -> A -> Prop) (l : list A) :
  StronglySorted R l -> StronglySorted (fun x y => R y x) (rev l).
Proof.
  induction 1 as [ | x l Hs IH Hx]; cbn [rev]; [constructor | ].
  clear Hs. revert IH Hx. generalize (rev_involutive l).
  assert (Hin : forall y, In y (rev l) -> In y l)
    by (intros y Hy; apply in_rev; exact Hy).
  revert Hin. generalize (rev l) as r. intros r Hin _ IH Hx.
  induction IH as [ | y r Hr IHr Hy]; cbn [app].
  - repeat constructor.
  - constructor.
    + apply IHr. intros z Hz. apply Hin. right. exact Hz.
    + apply Forall_app. split; [exact Hy | ].
      constructor; [ | constructor].
      rewrite Forall_forall in Hx. apply Hx, Hin. left. reflexivity.
Qed.

(** numpy's quicksort returns the indices in ascending order of their
    keys. *)
Lemma aquicksort_sorted (num : nat) :
  (forall i, (i < num)%nat -> valid i) ->
  StronglySorted (fun x y => less y x = false) (aquicksort less num).
Proof.
  intros Hv. unfold aquicksort, insertion_sort.
  apply (StronglySorted_rev (fun x y => less x y = false)).
  apply fold_insert_left_sorted; [ | constructor | constructor].
  apply (Permutation_Forall
           (Permutation_sym (quicksort_partitions_perm num (seq 0 num) 0 (num - 1)))).
  apply Forall_forall. intros i Hi. apply in_seq in Hi. apply Hv. lia.
Qed.

End QuicksortFacts.

Section RankingFacts.

Local Open Scope string_scope.

Lemma scenario_row_mean (name : string) (wer : R) (z : Z) :
  wer * 10 ^ 4 = IZR z ->
  Stats.mean (row_stats (scenario_row name wer)) = Fin wer.
Proof.
  intros Hz. unfold scenario_row. cbn [row_stats round_floats Stats.mean stats_literal].
  unfold pd_mean, fround, lift1, Rsum, len. cbn [fold_right List.length].
  f_equal.
  replace ((wer + (wer + 0)) / INR 2) with wer by (simpl; field).
  exact (py_round_exact wer 4 z Hz).
Qed.

Lemma scenario_means :
  Stats.mean (row_stats (scenario_row "A" 12)) = Fin 12 /\
  Stats.mean (row_stats (scenario_row "B" (85 / 10))) = Fin (85 / 10) /\
  Stats.mean (row_stats (scenario_row "C" (85 / 10))) = Fin (85 / 10).
Proof.
  split; [apply (scenario_row_mean _ _ 120000); simpl; lra | ].
  split; apply (scenario_row_mean _ _ 85000); simpl; lra.
Qed.

Lemma take_cons_S {A : Type} (x : A) (items : list A) (indexer : list nat) :
  take (x :: items) (map S indexer) = take items indexer.
Proof.
  unfold take. induction indexer as [ | i indexer IH]; [reflexivity | ].
  cbn [map flat_map nth_error]. rewrite IH. reflexivity.
Qed.

Lemma take_seq {A : Type} (items : list A) :
  take items (seq 0 (List.length items)) = items.
Proof.
  induction items as [ | x items IH]; [reflexivity | ].
  cbn [List.length seq]. rewrite <- seq_shift.
  change (take (x :: items) (0%nat :: map S (seq 0 (List.length items))))
    with (x :: take (x :: items) (map S (seq 0 (List.length items)))).
  rewrite take_cons_S, IH. reflexivity.
Qed.

Lemma take_perm {A : Type} (items : list A) (i1 i2 : list nat) :
  Permutation i1 i2 -> Permutation (take items i1) (take items i2).
Proof. intros H. unfold take. apply Permutation_flat_map, H. Qed.

Lemma take_map {A B : Type} (f : A -> B) (items : list A) (indexer : list nat) :
  take (map f items) indexer = map f (take items indexer).
Proof.
  unfold take. induction indexer as [ | i indexer IH]; [reflexivity | ].
  cbn [flat_map]. rewrite map_app, IH, nth_error_map.
  destruct (nth_error items i); reflexivity.
Qed.

Lemma In_take {A : Type} (items : list A) (indexer : list nat) (r : A) :
  In r (take items indexer) ->
  exists i, In i indexer /\ nth_error items i = Some r.
Proof.
  unfold take. intros H. apply in_flat_map in H as (i & Hi & Hr).
  exists i. split; [exact Hi | ].
  destruct (nth_error items i) as [r' | ]; [ | destruct Hr].
  destruct Hr as [-> | []]. reflexivity.
Qed.

Lemma filter_partition_perm {A : Type} (p : A -> bool) (l : list A) :
  Permutation l (filter (fun x => negb (p x)) l ++ filter p l).
Proof.
  induction l as [ | x l IH]; [reflexivity | ].
  cbn [filter]. destruct (p x); cbn [negb].
  - rewrite <- Permutation_middle. apply perm_skip, IH.
  - cbn [app]. apply perm_skip, IH.
Qed.

Lemma StronglySorted_app {A : Type} (R : A -> A -> Prop) (l1 l2 : list A) :
  StronglySorted R l1 -> StronglySorted R l2 ->
  (forall a b, In a l1 -> In b l2 -> R a b) ->
  StronglySorted R (l1 ++ l2).
Proof.
  intros H1 H2 H. induction H1 as [ | x l1 H1 IH Hx]; [exact H2 | ].
  cbn [app]. constructor.
  - apply IH. intros a b Ha Hb. apply H; [right; exact Ha | exact Hb].
  - apply Forall_app. split; [exact Hx | ].
    apply Forall_forall. intros b Hb. apply H; [left; reflexivity | exact Hb].
Qed.

Lemma Rltb_spec (x y : R) : Rltb x y = true <-> x < y.
Proof.
  unfold Rltb. destruct (Rlt_dec x y); split; intros; try assumption;
    try reflexivity; try discriminate; contradiction.
Qed.

Lemma Rltb_IZR (a b : Z) : Rltb (IZR a) (IZR b) = (a <? b)%Z.
Proof.
  destruct (Z.ltb_spec a b) as [H | H].
  - apply Rltb_spec, IZR_lt, H.
  - destruct (Rltb (IZR a) (IZR b)) eqn:E; [ | reflexivity].
    apply Rltb_spec, lt_IZR in E. lia.
Qed.

(** The rows that [sort_values] orders by [argsort] have a mean that is a
    number. *)
Lemma non_nans_mean (df : list row) (r : row) :
  In r (filter (fun r => negb (is_nan (Stats.mean (row_stats r)))) df) ->
  exists x, Stats.mean (row_stats r) = Fin x.
Proof.
  intros H. apply filter_In in H as [_ H].
  destruct (Stats.mean (row_stats r)) as [ | x]; [discriminate H | eauto].
Qed.

(** [sort_values('mean')] returns a reordering of the rows. *)
Lemma sort_values_mean_perm (df : list row) :
  Permutation df (sort_values_mean df).
Proof.
  unfold sort_values_mean. cbv zeta.
  set (non_nans := filter _ df).
  rewrite (take_perm non_nans _ _ (aquicksort_perm _ (List.length non_nans))).
  rewrite take_seq. unfold non_nans.
  apply (filter_partition_perm
           (fun r : row => is_nan (Stats.mean (row_stats r)))).
Qed.

(** [sort_values('mean')] returns the rows in ascending order of the mean,
    those without a mean last. *)
Lemma sort_values_mean_sorted (df : list row) :
  StronglySorted mean_le (sort_values_mean df).
Proof.
  unfold sort_values_mean. cbv zeta.
  set (non_nans := filter _ df).
  assert (Hfin : forall i r, nth_error non_nans i = Some r ->
                    exists x, Stats.mean (row_stats r) = Fin x).
  { intros i r Hr. apply (non_nans_mean df). eapply nth_error_In, Hr. }
  assert (Hget : forall i, (i < List.length non_nans)%nat ->
                    exists r, nth_error non_nans i = Some r).
  { intros i Hi. destruct (nth_error non_nans i) as [r | ] eqn:E; [eauto | ].
    apply nth_error_None in E. lia. }
  set (less := less_at mean_ltb non_nans).
  set (valid := fun i => (i < List.length non_nans)%nat).
  assert (Hless : forall x y, valid x -> valid y ->
                    exists kx ky rx ry,
                      nth_error non_nans x = Some rx /\
                      nth_error non_nans y = Some ry /\
                      Stats.mean (row_stats rx) = Fin kx /\
                      Stats.mean (row_stats ry) = Fin ky /\
                      less x y = Rltb kx ky).
  { intros x y Hx Hy.
    destruct (Hget x Hx) as [rx Ex]. destruct (Hget y Hy) as [ry Ey].
    destruct (Hfin x rx Ex) as [kx Kx]. destruct (Hfin y ry Ey) as [ky Ky].
    exists kx, ky, rx, ry. repeat (split; [assumption | ]).
    unfold less, less_at, mean_ltb. rewrite Ex, Ey, Kx, Ky. reflexivity. }
  assert (Hs : StronglySorted (fun x y => less y x = false)
                 (aquicksort less (List.length non_nans))).
  { apply (aquicksort_sorted less valid).
    - intros x y Hx Hy.
      destruct (Hless x y Hx Hy) as (kx & ky & rx & ry & Ex & Ey & Kx & Ky & E).
      destruct (Hless y x Hy Hx) as (ky' & kx' & ry' & rx' & Ey' & Ex' & Ky' & Kx' & E').
      rewrite E, E'. intros H. apply Rltb_spec in H.
      assert (kx' = kx) by congruence. assert (ky' = ky) by congruence.
      subst. apply Rltb_false. lra.
    - intros x y z Hx Hy Hz.
      destruct (Hless x y Hx Hy) as (kx & ky & rx & ry & Ex & Ey & Kx & Ky & E).
      destruct (Hless y z Hy Hz) as (ky' & kz & ry' & rz & Ey' & Ez & Ky' & Kz & E').
      destruct (Hless x z Hx Hz) as (kx' & kz' & rx' & rz' & Ex' & Ez' & Kx' & Kz' & E'').
      rewrite E, E', E''.
      assert (ky' = ky) by congruence. assert (kx' = kx) by congruence.
      assert (kz' = kz) by congruence. subst.
      intros H1 H2.
      destruct (Rltb kx ky) eqn:F1; [discriminate | ].
      destruct (Rltb ky kz) eqn:F2; [discriminate | ].
      destruct (Rltb kx kz) eqn:F3; [ | reflexivity].
      apply Rltb_spec in F3.
      assert (~ kx < ky) by (intros C; apply Rltb_spec in C; congruence).
      assert (~ ky < kz) by (intros C; apply Rltb_spec in C; congruence).
      lra.
    - intros i Hi. exact Hi. }
  assert (Hv : Forall valid (aquicksort less (List.length non_nans))).
  { apply (Permutation_Forall
             (Permutation_sym (aquicksort_perm less (List.length non_nans)))).
    apply Forall_forall. intros i Hi. apply in_seq in Hi. unfold valid. lia. }
  apply StronglySorted_app.
  - revert Hv. induction Hs as [ | i idx Hs IH Hi]; intros Hv;
      [constructor | ].
    apply Forall_cons_iff in Hv as [Hvi Hv].
    destruct (Hget i Hvi) as [ri Ei].
    unfold take. cbn [flat_map]. rewrite Ei. cbn [app].
    constructor; [apply IH, Hv | ].
    apply Forall_forall. intros r Hr.
    apply In_take in Hr as (j & Hj & Ej).
    rewrite Forall_forall in Hi, Hv.
    destruct (Hless j i (Hv j Hj) Hvi)
      as (kj & ki & rj & ri' & Ej' & Ei' & Kj & Ki & E).
    assert (rj = r) by congruence. assert (ri' = ri) by congruence. subst.
    unfold mean_le. rewrite Ki, Kj.
    pose proof (Hi j Hj) as F. rewrite E in F.
    destruct (Rle_dec ki kj); [assumption | ].
    exfalso. assert (kj < ki) by lra.
    apply Rltb_spec in H. congruence.
  - assert (Hn : forall r,
               In r (filter (fun r => is_nan (Stats.mean (row_stats r))) df) ->
               Stats.mean (row_stats r) = NaN).
    { intros r Hr. apply filter_In in Hr as [_ Hr].
      destruct (Stats.mean (row_stats r)); [reflexivity | discriminate Hr]. }
    induction (filter (fun r => is_nan (Stats.mean (row_stats r))) df)
      as [ | r l IH]; [constructor | ].
    constructor; [apply IH; intros r' Hr'; apply Hn; right; exact Hr' | ].
    apply Forall_forall. intros r' Hr'. unfold mean_le.
    rewrite (Hn r' (or_intror Hr')).
    destruct (Stats.mean (row_stats r)); exact I.
  - intros a b Ha Hb. apply filter_In in Hb as [_ Hb].
    unfold mean_le.
    destruct (Stats.mean (row_stats b)); [ | discriminate Hb].
    destruct (Stats.mean (row_stats a)); exact I.
Qed.

Lemma insertion_sort_3 (less : nat -> nat -> bool) :
  less 1%nat 0%nat = true -> less 2%nat 1%nat = false ->
  less 2%nat 0%nat = true ->
  insertion_sort less [0; 1; 2]%nat = [1; 2; 0]%nat.
Proof.
  intros H10 H21 H20. unfold insertion_sort.
  cbn [fold_left insert_left]. rewrite H10. cbn [insert_left].
  rewrite H20, H21. reflexivity.
Qed.

(** The table of the scenario comes out in the order B, C, A. *)
Lemma sort_values_mean_scenario :
  sort_values_mean scenario =
  [scenario_row "B" (85 / 10); scenario_row "C" (85 / 10); scenario_row "A" 12].
Proof.
  destruct scenario_means as (Ma & Mb & Mc).
  assert (F : filter (fun r => negb (is_nan (Stats.mean (row_stats r))))
                scenario = scenario).
  { unfold scenario. cbn [filter]. rewrite Ma, Mb, Mc. reflexivity. }
  assert (N : filter (fun r => is_nan (Stats.mean (row_stats r))) scenario = []).
  { unfold scenario. cbn [filter]. rewrite Ma, Mb, Mc. reflexivity. }
  unfold sort_values_mean. cbv zeta. rewrite F, N, app_nil_r.
  change (List.length scenario) with 3%nat.
  rewrite aquicksort_small by lia. cbn [seq].
  rewrite insertion_sort_3; [reflexivity | | | ];
    unfold less_at, scenario; cbn [nth_error]; unfold mean_ltb;
    rewrite ?Ma, ?Mb, ?Mc; [apply Rltb_true | apply Rltb_false | apply Rltb_true];
    lra.
Qed.

Lemma score_row_mean (model : string * Z) :
  Stats.mean (row_stats (score_row model)) = Fin (IZR (snd model)).
Proof.
  unfold score_row.
  apply (scenario_row_mean _ _ (snd model * 10000)%Z).
  rewrite mult_IZR. simpl. lra.
Qed.

Lemma filter_map_all {A B : Type} (p : B -> bool) (f : A -> B) (l : list A) :
  (forall x, p (f x) = true) -> filter p (map f l) = map f l.
Proof.
  intros H. induction l as [ | x l IH]; [reflexivity | ].
  cbn [map filter]. rewrite H, IH. reflexivity.
Qed.

Lemma filter_map_none {A B : Type} (p : B -> bool) (f : A -> B) (l : list A) :
  (forall x, p (f x) = false) -> filter p (map f l) = [].
Proof.
  intros H. induction l as [ | x l IH]; [reflexivity | ].
  cbn [map filter]. rewrite H, IH. reflexivity.
Qed.

Lemma map_snd_enumerate {A : Type} (start : nat) (l : list A) :
  map snd (enumerate start l) = l.
Proof.
  revert start. induction l as [ | x l IH]; intros start; [reflexivity | ].
  cbn [enumerate map snd]. rewrite IH. reflexivity.
Qed.

(** The order of the rows of a table of integer scores is that of the
    indices that [argsort] returns for the scores. *)
Lemma sort_values_mean_scores (models : list (string * Z)) :
  sort_values_mean (map score_row models) =
  map score_row
      (take models
            (aquicksort (less_at (fun a b => (snd a <? snd b)%Z) models)
                        (List.length models))).
Proof.
  unfold sort_values_mean. cbv zeta.
  rewrite filter_map_all by (intros x; rewrite score_row_mean; reflexivity).
  rewrite filter_map_none by (intros x; rewrite score_row_mean; reflexivity).
  rewrite app_nil_r, length_map, take_map.
  do 2 f_equal.
  assert (E : less_at mean_ltb (map score_row models) =
              less_at (fun a b => (snd a <? snd b)%Z) models).
  { apply functional_extensionality. intros i.
    apply functional_extensionality. intros j.
    unfold less_at. rewrite !nth_error_map.
    destruct (nth_error models i) as [a | ]; [ | reflexivity].
    destruct (nth_error models j) as [b | ]; [ | reflexivity].
    cbn [option_map]. unfold mean_ltb. rewrite !score_row_mean.
    apply Rltb_IZR. }
  rewrite E. reflexivity.
Qed.

(** The ranking of the table of twenty models with numpy's quicksort. *)
Lemma ranked_models_twenty :
  map snd (ranked_models twenty_models) =
  ["M20"; "M15"; "M19"; "M13"; "M18"; "M03"; "M04"; "M07"; "M08"; "M11";
   "M12"; "M17"; "M16"; "M01"; "M02"; "M10"; "M09"; "M06"; "M05"; "M14"].
Proof.
  unfold ranked_models, twenty_models.
  rewrite length_map. change (1 <? List.length twenty_scores)%nat with true.
  cbv iota. rewrite map_snd_enumerate, sort_values_mean_scores, map_map.
  change (fun x => model_name (score_row x)) with (@fst string Z).
  vm_compute. reflexivity.
Qed.

Lemma before_beforeb (x y : string) (l : list string) :
  before x y l -> beforeb x y l = true.
Proof.
  intros (l1 & l2 & l3 & ->).
  induction l1 as [ | z l1 IH]; cbn [app beforeb].
  - rewrite String.eqb_refl, existsb_app. cbn [existsb].
    rewrite String.eqb_refl, orb_true_r. reflexivity.
  - rewrite IH. apply orb_true_r.
Qed.

End RankingFacts.


Section RankingClaims.

Local Open Scope string_scope.

(** C3 (the code on a table of twenty models): the ranking does not keep
    the input order of the models of equal mean.  The table is large
    enough for the quicksort to partition it, which moves rows of equal
    mean past each other: M13 and M15 have the same mean, 10, and M13
    comes first in the table, yet the quicksort returns M15 before M13. *)
Lemma ranked_models_ties_reordered :
  (1 < List.length twenty_models)%nat /\
  ~ ties_keep_input_order twenty_models.
Proof.
  split; [unfold twenty_models; rewrite length_map; simpl; lia | ].
  intros H.
  specialize (H (score_row ("M13", 10%Z)) (score_row ("M15", 10%Z))).
  assert (Hb : before (score_row ("M13", 10%Z)) (score_row ("M15", 10%Z))
                 twenty_models).
  { exists (map score_row (firstn 12 twenty_scores)),
      [score_row ("M14", 40%Z)],
      (map score_row (skipn 15 twenty_scores)).
    reflexivity. }
  specialize (H Hb). rewrite !score_row_mean in H. specialize (H eq_refl).
  apply before_beforeb in H. rewrite ranked_models_twenty in H.
  vm_compute in H. discriminate H.
Qed.

(** C3 (amended): the ranking lists the models of a table of at least two
    rows by ascending mean WER, the models without a mean last: it numbers
    from 1 the names of a reordering of the rows that is sorted by mean.
    A table of fewer rows gets no ranking.  For the input order A (12.0),
    B (8.5), C (8.5) the ranking is B, C, A. *)
Theorem ranked_models_ascending :
  (forall df, (1 < List.length df)%nat ->
     exists rows,
       Permutation df rows /\ StronglySorted mean_le rows /\
       ranked_models df = enumerate 1 (map model_name rows)) /\
  (forall df, (List.length df <= 1)%nat -> ranked_models df = []) /\
  ranked_models scenario = [(1%nat, "B"); (2%nat, "C"); (3%nat, "A")].
Proof.
  split; [ | split].
  - intros df Hlen. exists (sort_values_mean df).
    split; [apply sort_values_mean_perm | ].
    split; [apply sort_values_mean_sorted | ].
    unfold ranked_models.
    destruct (Nat.ltb_spec 1 (List.length df)); [reflexivity | lia].
  - intros df Hlen. unfold ranked_models.
    destruct (Nat.ltb_spec 1 (List.length df)); [lia | reflexivity].
  - unfold ranked_models. rewrite sort_values_mean_scenario. reflexivity.
Qed.

Lemma ranked_models_ascending_witness :
  (1 < List.length scenario)%nat /\
  exists rows,
    Permutation scenario rows /\ StronglySorted mean_le rows /\
    ranked_models scenario = enumerate 1 (map model_name rows) /\
    ranked_models scenario = [(1%nat, "B"); (2%nat, "C"); (3%nat, "A")].
Proof.
  assert (H : (1 < List.length scenario)%nat) by (simpl; lia).
  split; [exact H | ].
  destruct (proj1 ranked_models_ascending scenario H) as (rows & HP & HS & HR).
  exists rows. split; [exact HP | ]. split; [exact HS | ].
  split; [exact HR | ].
  exact (proj2 (proj2 ranked_models_ascending)).
Defined.

End RankingClaims.

(* ===================================================================== *)
(** * Trimming                                                             *)
(* ===================================================================== *)

Section Trimming.

Local Open Scope string_scope.

Lemma lstrip_starts_clean (s : string) : starts_clean (lstrip s).
Proof.
  induction s as [ | c s IH]; simpl; [exact I | ].
  destruct (isspace c) eqn:E; [exact IH | exact E].
Qed.

Lemma lstrip_fixed (s : string) : starts_clean s -> lstrip s = s.
Proof. destruct s as [ | c s]; simpl; [reflexivity | intros ->; reflexivity]. Qed.

Lemma rstrip_starts_clean (s : string) : starts_clean s -> starts_clean (rstrip s).
Proof.
  destruct s as [ | c s]; simpl; [trivial | ].
  intros Hc. destruct (rstrip s); [rewrite Hc | ]; exact Hc.
Qed.

Lemma rstrip_idempotent (s : string) : rstrip (rstrip s) = rstrip s.
Proof.
  induction s as [ | c s IH]; simpl; [reflexivity | ].
  destruct (rstrip s) as [ | d t] eqn:E.
  - destruct (isspace c) eqn:Ec; simpl; [reflexivity | rewrite Ec; reflexivity].
  - simpl. simpl in IH. destruct (rstrip t) as [ | d' t'] eqn:Et.
    + destruct (isspace d) eqn:Ed; [discriminate IH | ].
      injection IH as ->. reflexivity.
    + rewrite IH. reflexivity.
Qed.

Lemma strip_idempotent (s : string) : strip (strip s) = strip s.
Proof.
  unfold strip.
  rewrite (lstrip_fixed (rstrip (lstrip s)))
    by apply rstrip_starts_clean, lstrip_starts_clean.
  apply rstrip_idempotent.
Qed.

Lemma occurs_lstrip (c : ascii) (s : string) :
  occurs c (lstrip s) = true -> occurs c s = true.
Proof.
  induction s as [ | d s IH]; simpl; [trivial | ].
  destruct (isspace d); simpl; [ | trivial].
  intros H. rewrite (IH H). apply orb_true_r.
Qed.

Lemma occurs_rstrip (c : ascii) (s : string) :
  occurs c (rstrip s) = true -> occurs c s = true.
Proof.
  induction s as [ | d s IH]; simpl; [trivial | ].
  destruct (rstrip s) as [ | e t].
  - destruct (isspace d); simpl; [discriminate | ].
    rewrite orb_false_r. intros ->. reflexivity.
  - simpl in *. intros H. apply orb_true_iff in H as [H | H].
    + rewrite H. reflexivity.
    + rewrite (IH H). apply orb_true_r.
Qed.

Lemma occurs_strip (c : ascii) (s : string) :
  occurs c (strip s) = true -> occurs c s = true.
Proof. intros H. apply occurs_lstrip, occurs_rstrip, H. Qed.

Lemma occurs_lstrip_keeps (c : ascii) (s : string) :
  isspace c = false -> occurs c s = true -> occurs c (lstrip s) = true.
Proof.
  intros Hc. induction s as [ | d s IH]; simpl; [trivial | ].
  destruct (isspace d) eqn:Ed; simpl; [ | trivial].
  intros H. apply orb_true_iff in H as [H | H]; [ | exact (IH H)].
  apply Ascii.eqb_eq in H. congruence.
Qed.

Lemma occurs_rstrip_keeps (c : ascii) (s : string) :
  isspace c = false -> occurs c s = true -> occurs c (rstrip s) = true.
Proof.
  intros Hc. induction s as [ | d s IH]; simpl; [trivial | ].
  intros H. apply orb_true_iff in H as [H | H].
  - apply Ascii.eqb_eq in H. subst d.
    destruct (rstrip s); [rewrite Hc | ]; simpl; rewrite Ascii.eqb_refl;
      reflexivity.
  - specialize (IH H). destruct (rstrip s) as [ | e t]; [discriminate IH | ].
    simpl in *. rewrite IH. apply orb_true_r.
Qed.

End Trimming.

(* ===================================================================== *)
(** * extract_transcript.py                                                *)
(* ===================================================================== *)

Section ExtractTranscript.

Local Open Scope string_scope.

Lemma split_on_nonempty (sep : ascii) (s : string) : split_on sep s <> [].
Proof.
  destruct s as [ | c s]; simpl; [discriminate | ].
  destruct (Ascii.eqb c sep); [discriminate | ].
  destruct (split_on sep s); discriminate.
Qed.

(** There is a second piece exactly when the separator occurs. *)
Lemma split_on_two (sep : ascii) (s : string) :
  (2 <=? List.length (split_on sep s))%nat = occurs sep s.
Proof.
  induction s as [ | c s IH]; simpl; [reflexivity | ].
  destruct (Ascii.eqb c sep); simpl.
  - pose proof (split_on_nonempty sep s).
    destruct (split_on sep s); [congruence | reflexivity].
  - pose proof (split_on_nonempty sep s).
    destruct (split_on sep s); [congruence | exact IH].
Qed.

(** No piece contains the separator. *)
Lemma split_on_pieces (sep : ascii) (s : string) :
  Forall (fun p => occurs sep p = false) (split_on sep s).
Proof.
  induction s as [ | c s IH]; simpl; [repeat constructor | ].
  destruct (Ascii.eqb c sep) eqn:E; [constructor; [reflexivity | exact IH] | ].
  destruct (split_on sep s) as [ | p ps]; [repeat constructor; simpl; rewrite E; reflexivity | ].
  inversion IH as [ | ? ? Hp Hps]; subst.
  constructor; [simpl; rewrite E, Hp; reflexivity | exact Hps].
Qed.

Lemma split_on_clean (sep : ascii) (a : string) :
  occurs sep a = false -> split_on sep a = [a].
Proof.
  induction a as [ | c a IH]; simpl; [reflexivity | ].
  intros H. apply orb_false_iff in H as [Hc Ha].
  rewrite Hc, (IH Ha). reflexivity.
Qed.

Lemma split_on_app (sep : ascii) (a s : string) :
  occurs sep a = false ->
  split_on sep (a ++ String sep s) = a :: split_on sep s.
Proof.
  induction a as [ | c a IH]; simpl.
  - intros _. rewrite Ascii.eqb_refl. reflexivity.
  - intros H. apply orb_false_iff in H as [Hc Ha].
    rewrite Hc, (IH Ha). reflexivity.
Qed.

Lemma occurs_strip_eq (c : ascii) (s : string) :
  isspace c = false -> occurs c (strip s) = occurs c s.
Proof.
  intros Hc. destruct (occurs c s) eqn:E.
  - unfold strip. apply occurs_rstrip_keeps, occurs_lstrip_keeps; assumption.
  - destruct (occurs c (strip s)) eqn:E'; [ | reflexivity].
    apply occurs_strip in E'. congruence.
Qed.

(** A line yields a file exactly when it contains the separator. *)
Lemma has_transcript_occurs (line : string) :
  has_transcript line = occurs "|" line.
Proof.
  unfold has_transcript.
  rewrite split_on_two, (occurs_strip_eq "|" line) by reflexivity.
  destruct (occurs "|" line) eqn:E; [ | apply andb_false_r].
  rewrite andb_true_r.
  rewrite <- (occurs_strip_eq "|" line) in E by reflexivity.
  destruct (strip line); [discriminate E | reflexivity].
Qed.

Lemma quota_nil (num_lines : option Z) (p : nat) : quota num_lines p 0 = 0%nat.
Proof.
  unfold quota. destruct num_lines as [z | ]; [ | reflexivity].
  destruct (z =? 0)%Z; [reflexivity | apply Nat.min_0_r].
Qed.

Lemma quota_stop (num_lines : option Z) (p n : nat) :
  limit_reached num_lines (S p) = true -> quota num_lines p (S n) = 1%nat.
Proof.
  unfold limit_reached, quota. destruct num_lines as [z | ]; [ | discriminate].
  destruct (Z.eqb_spec z 0); simpl; [discriminate | ].
  intros H. apply Z.leb_le in H. lia.
Qed.

Lemma quota_continue (num_lines : option Z) (p n : nat) :
  limit_reached num_lines (S p) = false ->
  quota num_lines p (S n) = S (quota num_lines (S p) n).
Proof.
  unfold limit_reached, quota. destruct num_lines as [z | ]; [ | reflexivity].
  destruct (Z.eqb_spec z 0); simpl; [reflexivity | ].
  intros H. apply Z.leb_gt in H. lia.
Qed.

Lemma allowed_quota (num_lines : option Z) (n : nat) :
  allowed num_lines n = quota num_lines 0 n.
Proof.
  unfold allowed, quota. destruct num_lines as [z | ]; [ | reflexivity].
  destruct (Z.eqb_spec z 0); [reflexivity | ].
  destruct (Z.ltb_spec z 0); lia.
Qed.

(** The loop writes the transcripts of the first lines that yield a file,
    as many as the limit allows, under consecutive numbers. *)
Lemma extract_loop_spec (num_lines : option Z) (lines : list string) :
  forall st : extract_state,
    let ts := map transcript_of (filter has_transcript lines) in
    let k := quota num_lines (lines_processed st) (List.length ts) in
    extract_loop num_lines lines st =
    {| file_counter := file_counter st + k;
       lines_processed := lines_processed st + k;
       written := written st ++ combine (seq (file_counter st) k) (firstn k ts) |}.
Proof.
  induction lines as [ | line rest IH]; intros [fc p w]; cbn zeta.
  - cbn [filter map List.length extract_loop file_counter lines_processed written].
    rewrite quota_nil. cbn [seq firstn combine].
    rewrite !Nat.add_0_r, app_nil_r. reflexivity.
  - cbn [extract_loop filter].
    assert (Eh : has_transcript line =
                 negb (py_not (strip line)) &&
                 (2 <=? List.length (split_on "|" (strip line)))%nat)
      by reflexivity.
    destruct (py_not (strip line)) eqn:En.
    { cbn [negb andb] in Eh. rewrite Eh. exact (IH (mk_extract_state fc p w)). }
    destruct (2 <=? List.length (split_on "|" (strip line)))%nat eqn:E2.
    2:{ cbn [negb andb] in Eh. rewrite Eh. exact (IH (mk_extract_state fc p w)). }
    cbn [negb andb] in Eh. rewrite Eh.
    cbn [map List.length file_counter lines_processed written].
    fold (transcript_of line).
    destruct (limit_reached num_lines (S p)) eqn:El.
    + rewrite (quota_stop _ _ _ El). cbn [seq firstn combine].
      f_equal; lia.
    + rewrite (quota_continue _ _ _ El), IH.
      cbn [file_counter lines_processed written seq firstn combine].
      rewrite <- app_assoc. cbn [app].
      f_equal; lia.
Qed.

Lemma extract_transcript_spec (lines : list string) (num_lines : option Z) :
  let ts := map transcript_of (filter has_transcript lines) in
  let k := allowed num_lines (List.length ts) in
  extract_transcript lines num_lines = (k, combine (seq 1 k) (firstn k ts)).
Proof.
  cbn zeta. unfold extract_transcript. rewrite extract_loop_spec, allowed_quota.
  reflexivity.
Qed.

Lemma allowed_le (num_lines : option Z) (n : nat) :
  (allowed num_lines n <= n)%nat.
Proof.
  unfold allowed. destruct num_lines as [z | ]; [ | lia].
  destruct (z =? 0)%Z; [lia | ]. destruct (z <? 0)%Z; lia.
Qed.

Lemma filter_has_transcript (lines : list string) :
  filter has_transcript lines = filter (occurs "|") lines.
Proof. apply filter_ext. intros l. apply has_transcript_occurs. Qed.

Lemma combine_seq_fst {A : Type} (start : nat) (l : list A) (k : nat) :
  (k <= List.length l)%nat ->
  map fst (combine (seq start k) (firstn k l)) = seq start k /\
  map snd (combine (seq start k) (firstn k l)) = firstn k l.
Proof.
  revert start l. induction k as [ | k IH]; intros start l Hk; [split; reflexivity | ].
  destruct l as [ | a l]; [simpl in Hk; lia | ].
  simpl in Hk. destruct (IH (S start) l ltac:(lia)) as [E1 E2].
  cbn [seq firstn combine map fst snd]. rewrite E1, E2. split; reflexivity.
Qed.

(** X1: the value returned by [extract_transcript] is the number of files
    written, and the files are numbered 1, 2, ... without a gap, in the
    order in which they were written: no file is written twice. *)
Theorem extract_transcript_numbering (lines : list string)
    (num_lines : option Z) :
  fst (extract_transcript lines num_lines) =
    List.length (snd (extract_transcript lines num_lines)) /\
  map fst (snd (extract_transcript lines num_lines)) =
    seq 1 (fst (extract_transcript lines num_lines)).
Proof.
  rewrite extract_transcript_spec. cbn [fst snd].
  set (ts := map transcript_of (filter has_transcript lines)).
  pose proof (allowed_le num_lines (List.length ts)) as Hk.
  destruct (combine_seq_fst 1 ts _ Hk) as [E1 _].
  split; [ | exact E1].
  rewrite <- (length_map fst), E1, length_seq. reflexivity.
Qed.

(** X2: the files hold, in order, the transcripts of the first lines that
    contain the separator ["|"]; the lines without one, blank lines among
    them, are passed over and take no number. *)
Theorem extract_transcript_selection (lines : list string)
    (num_lines : option Z) :
  map snd (snd (extract_transcript lines num_lines)) =
  firstn (fst (extract_transcript lines num_lines))
         (map transcript_of (filter (occurs "|") lines)).
Proof.
  rewrite extract_transcript_spec, filter_has_transcript. cbn [fst snd].
  apply combine_seq_fst, allowed_le.
Qed.

(** X3: the number of files written, with [e] the number of lines that
    contain the separator: all [e] without a limit and with the limit 0,
    which counts as no limit; the smaller of [z] and [e] for a positive
    limit [z]; and at most one for a negative limit. *)
Theorem extract_transcript_limit (lines : list string) (num_lines : option Z) :
  let e := List.length (filter (occurs "|") lines) in
  let n := fst (extract_transcript lines num_lines) in
  (num_lines = None \/ num_lines = Some 0%Z -> n = e) /\
  (forall z, (0 < z)%Z -> num_lines = Some z -> n = Nat.min (Z.to_nat z) e) /\
  (forall z, (z < 0)%Z -> num_lines = Some z -> n = Nat.min 1 e).
Proof.
  cbn zeta. rewrite extract_transcript_spec, filter_has_transcript.
  cbn [fst]. rewrite length_map.
  set (e := List.length (filter (occurs "|") lines)).
  split; [ | split].
  - intros [-> | ->]; reflexivity.
  - intros z Hz ->. unfold allowed.
    destruct (Z.eqb_spec z 0); [lia | ].
    destruct (Z.ltb_spec z 0); [lia | reflexivity].
  - intros z Hz ->. unfold allowed.
    destruct (Z.eqb_spec z 0); [lia | ].
    destruct (Z.ltb_spec z 0); [reflexivity | lia].
Qed.

Lemma extract_transcript_limit_witness :
  fst (extract_transcript ["1|a|x"; ""; "no separator"; "2|b|y"; "3|c|z"] None)
    = 3%nat /\
  fst (extract_transcript ["1|a|x"; ""; "no separator"; "2|b|y"; "3|c|z"]
                          (Some 0%Z)) = 3%nat /\
  fst (extract_transcript ["1|a|x"; ""; "no separator"; "2|b|y"; "3|c|z"]
                          (Some 2%Z)) = 2%nat /\
  fst (extract_transcript ["1|a|x"; ""; "no separator"; "2|b|y"; "3|c|z"]
                          (Some (-4)%Z)) = 1%nat.
Proof.
  pose (lines := ["1|a|x"; ""; "no separator"; "2|b|y"; "3|c|z"]).
  split; [ | split; [ | split]].
  - exact (proj1 (extract_transcript_limit lines None) (or_introl eq_refl)).
  - exact (proj1 (extract_transcript_limit lines (Some 0%Z)) (or_intror eq_refl)).
  - exact (proj1 (proj2 (extract_transcript_limit lines (Some 2%Z)))
                 2%Z eq_refl eq_refl).
  - exact (proj2 (proj2 (extract_transcript_limit lines (Some (-4)%Z)))
                 (-4)%Z eq_refl eq_refl).
Defined.

Lemma In_firstn {A : Type} (x : A) (k : nat) (l : list A) :
  In x (firstn k l) -> In x l.
Proof.
  intros H. rewrite <- (firstn_skipn k l). apply in_or_app. left. exact H.
Qed.

Lemma transcript_of_clean (line : string) :
  strip (transcript_of line) = transcript_of line /\
  occurs "|" (transcript_of line) = false.
Proof.
  unfold transcript_of. split; [apply strip_idempotent | ].
  rewrite occurs_strip_eq by reflexivity.
  pose proof (split_on_pieces "|" (strip line)) as Hp.
  destruct (split_on "|" (strip line)) as [ | p0 [ | p1 ps]]; try reflexivity.
  inversion Hp as [ | ? ? _ Hp']; subst.
  inversion Hp' as [ | ? ? H1 _]; subst. exact H1.
Qed.

(** X4: no file written by [extract_transcript] starts or ends with
    whitespace, and none contains the separator ["|"]. *)
Theorem extract_transcript_clean (lines : list string) (num_lines : option Z)
    (number : nat) (content : string) :
  In (number, content) (snd (extract_transcript lines num_lines)) ->
  strip content = content /\ occurs "|" content = false.
Proof.
  rewrite extract_transcript_spec. cbn [snd]. intros Hin.
  apply in_combine_r, In_firstn, in_map_iff in Hin.
  destruct Hin as (line & <- & _). apply transcript_of_clean.
Qed.

Lemma extract_transcript_clean_witness :
  In (2%nat, "second line")
     (snd (extract_transcript ["1| first |x"; "2|  second line |y"] None)) /\
  strip "second line" = "second line" /\ occurs "|" "second line" = false.
Proof.
  assert (H : In (2%nat, "second line")
                 (snd (extract_transcript
                         ["1| first |x"; "2|  second line |y"] None)))
    by (vm_compute; right; left; reflexivity).
  split; [exact H | ].
  exact (extract_transcript_clean _ None 2%nat "second line" H).
Defined.

(** X5: the content written for a line is its second column, trimmed:
    when the trimmed line reads [a|b|c] or [a|b], with no separator in
    [a] and [b], the content is [b] without the whitespace around it;
    what follows a second separator is dropped. *)
Theorem transcript_of_second_column (line a b c : string) :
  occurs "|" a = false -> occurs "|" b = false ->
  (strip line = a ++ "|" ++ b ++ "|" ++ c -> transcript_of line = strip b) /\
  (strip line = a ++ "|" ++ b -> transcript_of line = strip b).
Proof.
  intros Ha Hb. unfold transcript_of. split; intros ->.
  - change (a ++ "|" ++ b ++ "|" ++ c) with (a ++ String "|" (b ++ String "|" c)).
    rewrite (split_on_app "|" a _ Ha), (split_on_app "|" b _ Hb). reflexivity.
  - change (a ++ "|" ++ b) with (a ++ String "|" b).
    rewrite (split_on_app "|" a _ Ha), (split_on_clean "|" b Hb). reflexivity.
Qed.

Lemma transcript_of_second_column_witness :
  transcript_of " 7| hello there |speaker one " = "hello there" /\
  transcript_of " 7| hello there " = "hello there".
Proof.
  split.
  - exact (proj1 (transcript_of_second_column
                    " 7| hello there |speaker one " "7" " hello there "
                    "speaker one" eq_refl eq_refl) eq_refl).
  - exact (proj2 (transcript_of_second_column
                    " 7| hello there " "7" " hello there" ""
                    eq_refl eq_refl) eq_refl).
Defined.

End ExtractTranscript.

(* ===================================================================== *)
(** * Sums, bounds and constant series                                     *)
(* ===================================================================== *)

Section SeriesFacts.

Lemma Rsum_upper (t : R) (s : Series) :
  Forall (fun x => x <= t) s -> Rsum s <= INR (len s) * t.
Proof.
  induction 1 as [ | x s Hx _ IH]; [simpl; lra | ].
  rewrite len_cons, S_INR. simpl. lra.
Qed.

Lemma Rsum_lower (t : R) (s : Series) :
  Forall (fun x => t <= x) s -> INR (len s) * t <= Rsum s.
Proof.
  induction 1 as [ | x s Hx _ IH]; [simpl; lra | ].
  rewrite len_cons, S_INR. simpl. lra.
Qed.

Lemma len_pos (s : Series) : s <> [] -> 0 < INR (len s).
Proof.
  intros H. apply lt_0_INR. destruct s; [congruence | simpl; lia].
Qed.

Lemma mean_upper (t : R) (s : Series) :
  s <> [] -> Forall (fun x => x <= t) s -> Rsum s / INR (len s) <= t.
Proof.
  intros Hs Hall. pose proof (len_pos s Hs) as Hn.
  apply (Rmult_le_reg_r (INR (len s))); [exact Hn | ].
  replace (Rsum s / INR (len s) * INR (len s)) with (Rsum s) by (field; lra).
  pose proof (Rsum_upper t s Hall). lra.
Qed.

Lemma mean_lower (t : R) (s : Series) :
  s <> [] -> Forall (fun x => t <= x) s -> t <= Rsum s / INR (len s).
Proof.
  intros Hs Hall. pose proof (len_pos s Hs) as Hn.
  apply (Rmult_le_reg_r (INR (len s))); [exact Hn | ].
  replace (Rsum s / INR (len s) * INR (len s)) with (Rsum s) by (field; lra).
  pose proof (Rsum_lower t s Hall). lra.
Qed.

Lemma mean_constant (c : R) (s : Series) :
  s <> [] -> Forall (fun x => x = c) s -> Rsum s / INR (len s) = c.
Proof.
  intros Hs Hall. apply Rle_antisym.
  - apply mean_upper; [exact Hs | ].
    eapply Forall_impl; [ | exact Hall]. intros x ->. lra.
  - apply mean_lower; [exact Hs | ].
    eapply Forall_impl; [ | exact Hall]. intros x ->. lra.
Qed.

Lemma Rsum_zero (s : list R) : Forall (fun x => x = 0) s -> Rsum s = 0.
Proof. induction 1 as [ | x s -> _ IH]; simpl; lra. Qed.

(** The deviations of a constant series vanish. *)
Lemma moment_sum_constant (k : nat) (c : R) (s : Series) :
  s <> [] -> Forall (fun x => x = c) s -> moment_sum (S k) s = 0.
Proof.
  intros Hs Hall. unfold moment_sum. rewrite (mean_constant c s Hs Hall).
  apply Rsum_zero. apply Forall_map.
  eapply Forall_impl; [ | exact Hall]. intros x ->. simpl. lra.
Qed.

Lemma py_round_0 (n : nat) : py_round 0 n = 0.
Proof. apply (py_round_exact 0 n 0). lra. Qed.

Lemma py_round_const (z : Z) (n : nat) : py_round (IZR z) n = IZR z.
Proof.
  apply (py_round_exact _ n (z * 10 ^ Z.of_nat n)).
  rewrite mult_IZR. f_equal.
  rewrite <- pow_IZR. reflexivity.
Qed.

End SeriesFacts.

(* ===================================================================== *)
(** * The interpretation block of the report                               *)
(* ===================================================================== *)

Section Interpretation.

Local Open Scope string_scope.

Lemma stats_mean_nonempty (l : Series) :
  l <> [] ->
  Stats.mean (round_floats (stats_literal l)) =
  Fin (py_round (Rsum l / INR (len l)) 4).
Proof.
  intros Hl. cbn [round_floats stats_literal Stats.mean].
  rewrite pd_mean_nonempty by (destruct l; [congruence | simpl; lia]).
  reflexivity.
Qed.

(** X6: the overall rating of a model is no worse than the category of
    its worst score: EXCELLENT when every score is at most 10, EXCELLENT
    or GOOD when every score is at most 20, and never POOR when every
    score is at most 30. *)
Theorem overall_rating_bound (l : Series) :
  l <> [] ->
  (Forall (fun x => x <= 10) l ->
   overall (round_floats (stats_literal l)) = "EXCELLENT") /\
  (Forall (fun x => x <= 20) l ->
   overall (round_floats (stats_literal l)) = "EXCELLENT" \/
   overall (round_floats (stats_literal l)) = "GOOD") /\
  (Forall (fun x => x <= 30) l ->
   overall (round_floats (stats_literal l)) <> "POOR").
Proof.
  intros Hl. unfold overall. rewrite (stats_mean_nonempty l Hl).
  cbn [fleb].
  set (m := py_round (Rsum l / INR (len l)) 4).
  assert (Hb : forall z : Z, Forall (fun x => x <= IZR z) l -> m <= IZR z).
  { intros z Hall. rewrite <- (py_round_const z 4).
    apply py_round_mono, mean_upper; assumption. }
  split; [ | split]; intros Hall.
  - rewrite (Rleb_true m 10) by exact (Hb 10%Z Hall). reflexivity.
  - pose proof (Hb 20%Z Hall) as H20. unfold Rleb.
    destruct (Rle_dec m 10); [left; reflexivity | ].
    destruct (Rle_dec m 20); [right; reflexivity | contradiction].
  - pose proof (Hb 30%Z Hall) as H30. unfold Rleb.
    destruct (Rle_dec m 10); [discriminate | ].
    destruct (Rle_dec m 20); [discriminate | ].
    destruct (Rle_dec m 30); [discriminate | contradiction].
Qed.

Lemma overall_rating_bound_witness :
  overall (round_floats (stats_literal [5; 8])) = "EXCELLENT" /\
  overall (round_floats (stats_literal [5; 28])) <> "POOR".
Proof.
  split.
  - apply (overall_rating_bound [5; 8]); [discriminate | ].
    repeat constructor; lra.
  - apply (overall_rating_bound [5; 28]); [discriminate | ].
    repeat constructor; lra.
Defined.

(** X7: a model with fewer than three scores has no skewness
    (not-a-number), and the report then words its distribution as
    left-skewed. *)
Theorem skew_interp_short_series (l : Series) :
  (len l < 3)%nat ->
  Stats.skewness (round_floats (stats_literal l)) = NaN /\
  skew_interp (round_floats (stats_literal l)) =
  "Left-skewed - more samples with high WER".
Proof.
  intros Hn.
  assert (E : Stats.skewness (round_floats (stats_literal l)) = NaN).
  { cbn [round_floats stats_literal Stats.skewness]. unfold pd_skew.
    destruct (Nat.ltb_spec (len l) 3); [reflexivity | lia]. }
  split; [exact E | ]. unfold skew_interp. rewrite E. reflexivity.
Qed.

Lemma skew_interp_short_series_witness :
  skew_interp (round_floats (stats_literal [5; 7])) =
  "Left-skewed - more samples with high WER".
Proof.
  assert (H : Nat.lt (len [5; 7]) 3) by (simpl; lia).
  exact (proj2 (skew_interp_short_series [5; 7] H)).
Defined.

Lemma cv_constant (c : R) (l : Series) :
  (2 <= len l)%nat -> Forall (fun x => x = c) l -> 0 < c ->
  Stats.cv (round_floats (stats_literal l)) = Float (Fin 0).
Proof.
  intros Hn Hall Hc.
  assert (Hl : l <> []) by (destruct l; [simpl in Hn; lia | discriminate]).
  cbn [round_floats stats_literal Stats.cv].
  rewrite pd_mean_nonempty by lia. rewrite (mean_constant c l Hl Hall).
  assert (E : fpos (Fin c) = true) by (apply fpos_Fin; exact Hc).
  rewrite E. unfold pd_std. rewrite (pd_var_long l Hn).
  rewrite (moment_sum_constant 1 c l Hl Hall).
  cbn [round_entry fsqrt lift1 fdiv fmul lift2 fround].
  do 2 f_equal.
  replace (0 / (INR (len l) - 1)) with 0 by (unfold Rdiv; ring).
  rewrite sqrt_0.
  replace (0 / c * 100) with 0 by (unfold Rdiv; ring).
  apply py_round_0.
Qed.

(** X8: how the report words the variability in three cases.  A model
    with a single positive score has no coefficient of variation
    (not-a-number) and is worded as highly variable; a model whose scores
    are all zero, and a model of at least two equal positive scores, have
    the coefficient 0 and are worded as of low variability. *)
Theorem cv_interp_cases :
  (forall x, 0 < x ->
     cv_interp (round_floats (stats_literal [x])) =
     "High variability - inconsistent performance") /\
  (forall l, Forall (fun x => x = 0) l ->
     cv_interp (round_floats (stats_literal l)) =
     "Low variability - highly consistent performance") /\
  (forall c l, (2 <= len l)%nat -> Forall (fun x => x = c) l -> 0 < c ->
     cv_interp (round_floats (stats_literal l)) =
     "Low variability - highly consistent performance").
Proof.
  split; [ | split].
  - intros x Hx. unfold cv_interp.
    cbn [round_floats stats_literal Stats.cv].
    rewrite pd_mean_singleton.
    assert (E : fpos (Fin x) = true) by (apply fpos_Fin; exact Hx).
    rewrite E. reflexivity.
  - intros l Hall. unfold cv_interp.
    assert (E : Stats.cv (round_floats (stats_literal l)) = Int 0).
    { cbn [round_floats stats_literal Stats.cv].
      destruct l as [ | x l]; [reflexivity | ].
      rewrite pd_mean_nonempty by (simpl; lia).
      rewrite (mean_constant 0 (x :: l)) by (discriminate || exact Hall).
      assert (F : fpos (Fin 0) = false).
      { destruct (fpos (Fin 0)) eqn:F; [ | reflexivity].
        apply fpos_Fin in F. lra. }
      rewrite F. reflexivity. }
    rewrite E. cbn [number_value fltb].
    rewrite (Rltb_true (IZR 0) 15) by lra. reflexivity.
  - intros c l Hn Hall Hc. unfold cv_interp.
    rewrite (cv_constant c l Hn Hall Hc). cbn [number_value fltb].
    rewrite (Rltb_true 0 15) by lra. reflexivity.
Qed.

Lemma cv_interp_cases_witness :
  cv_interp (round_floats (stats_literal [12])) =
    "High variability - inconsistent performance" /\
  cv_interp (round_floats (stats_literal [0; 0; 0])) =
    "Low variability - highly consistent performance" /\
  cv_interp (round_floats (stats_literal [12; 12])) =
    "Low variability - highly consistent performance".
Proof.
  destruct cv_interp_cases as (H1 & H2 & H3).
  split; [apply H1; lra | ].
  split; [apply H2; repeat constructor | ].
  apply (H3 12); [simpl; lia | repeat constructor | lra].
Defined.

End Interpretation.

(* ===================================================================== *)
(** * Dictionaries and the evaluation of a model                           *)
(* ===================================================================== *)

Section Evaluation.

Local Open Scope string_scope.

Lemma dict_get_keys {V : Type} (k : string) (d : dict V) :
  In k (keys d) <-> exists v, dict_get k d = Some v.
Proof.
  induction d as [ | [k' v'] d IH]; simpl.
  - split; [intros [] | intros [v H]; discriminate H].
  - destruct (String.eqb_spec k k') as [-> | Hne].
    + split; [eauto | auto].
    + rewrite IH. split; [intros [H | H]; [congruence | exact H] | auto].
Qed.

Lemma keys_dict_set {V : Type} (k : string) (v : V) (d : dict V) :
  forall k', In k' (keys (dict_set k v d)) <-> k' = k \/ In k' (keys d).
Proof.
  induction d as [ | [k0 v0] d IH]; intros k'; simpl;
    [intuition congruence | ].
  destruct (String.eqb_spec k k0) as [-> | Hne]; simpl;
    [intuition congruence | ].
  rewrite IH. intuition congruence.
Qed.

Lemma NoDup_dict_set {V : Type} (k : string) (v : V) (d : dict V) :
  NoDup (keys d) -> NoDup (keys (dict_set k v d)).
Proof.
  induction d as [ | [k0 v0] d IH]; simpl; intros Hd.
  - constructor; [intros [] | constructor].
  - inversion Hd as [ | ? ? Hnot Hd']; subst.
    destruct (String.eqb_spec k k0) as [-> | Hne]; simpl.
    + constructor; assumption.
    + constructor; [ | apply IH, Hd'].
      intros Hin. apply keys_dict_set in Hin as [-> | Hin]; [congruence | auto].
Qed.

Lemma dict_get_set {V : Type} (k k' : string) (v : V) (d : dict V) :
  dict_get k' (dict_set k v d) =
  if String.eqb k' k then Some v else dict_get k' d.
Proof.
  induction d as [ | [k0 v0] d IH]; simpl.
  - destruct (String.eqb k' k); reflexivity.
  - destruct (String.eqb_spec k k0) as [-> | Hne]; simpl.
    + destruct (String.eqb k' k0); reflexivity.
    + destruct (String.eqb_spec k' k0) as [-> | Hne'].
      * destruct (String.eqb_spec k0 k); [congruence | reflexivity].
      * exact IH.
Qed.

Lemma load_text_files_invariant (files : list (string * string)) :
  forall data : dict string,
    NoDup (keys data) ->
    (forall k v, dict_get k data = Some v -> strip v = v) ->
    let data' :=
      fold_left (fun data f => dict_set (fst f) (strip (snd f)) data)
                files data in
    NoDup (keys data') /\
    (forall k v, dict_get k data' = Some v -> strip v = v) /\
    (forall k, In k (keys data') <-> In k (map fst files) \/ In k (keys data)).
Proof.
  induction files as [ | [id text] files IH]; intros data Hnd Hst; cbn zeta.
  - simpl. split; [exact Hnd | ]. split; [exact Hst | tauto].
  - cbn [fold_left fst snd map].
    destruct (IH (dict_set id (strip text) data)) as (H1 & H2 & H3).
    + apply NoDup_dict_set, Hnd.
    + intros k v. rewrite dict_get_set.
      destruct (String.eqb k id); [ | apply Hst].
      intros [= <-]. apply strip_idempotent.
    + split; [exact H1 | ]. split; [exact H2 | ].
      intros k. rewrite H3, keys_dict_set. simpl. intuition congruence.
Qed.

(** X11: the dictionary built by [load_text_files] has one entry per file
    stem, and every text in it is trimmed: it neither starts nor ends with
    whitespace. *)
Theorem load_text_files_trimmed (files : list (string * string)) :
  NoDup (keys (load_text_files files)) /\
  (forall k, In k (keys (load_text_files files)) <-> In k (map fst files)) /\
  (forall k v, dict_get k (load_text_files files) = Some v -> strip v = v).
Proof.
  destruct (load_text_files_invariant files []) as (H1 & H2 & H3).
  - constructor.
  - intros k v H. discriminate H.
  - split; [exact H1 | ]. split; [ | exact H2].
    intros k. rewrite (H3 k). simpl. tauto.
Qed.

Lemma load_text_files_trimmed_witness :
  dict_get "2" (load_text_files [("1", " one "); ("2", "two  ")]) = Some "two" /\
  strip "two" = "two".
Proof.
  assert (H : dict_get "2" (load_text_files [("1", " one "); ("2", "two  ")])
              = Some "two") by reflexivity.
  split; [exact H | ].
  exact (proj2 (proj2 (load_text_files_trimmed _)) "2" "two" H).
Defined.

Lemma insert_id_perm (k : string) (l : list string) :
  Permutation (k :: l) (insert_id k l).
Proof.
  induction l as [ | k' l IH]; simpl; [reflexivity | ].
  destruct (String.leb k k'); [reflexivity | ].
  rewrite perm_swap. apply perm_skip, IH.
Qed.

Lemma sorted_ids_perm (l : list string) : Permutation l (sorted_ids l).
Proof.
  induction l as [ | k l IH]; simpl; [constructor | ].
  rewrite <- insert_id_perm. apply perm_skip, IH.
Qed.

Lemma insert_id_sorted (k : string) (l : list string) :
  Sorted (fun a b => String.leb a b = true) l ->
  Sorted (fun a b => String.leb a b = true) (insert_id k l).
Proof.
  induction 1 as [ | k' l Hs IH Hhd]; simpl; [repeat constructor | ].
  destruct (String.leb k k') eqn:E.
  - constructor; [constructor; assumption | constructor; exact E].
  - constructor; [exact IH | ].
    assert (E' : String.leb k' k = true)
      by (destruct (String.leb_total k k'); congruence).
    destruct l as [ | k'' l]; simpl; [constructor; exact E' | ].
    inversion Hhd; subst.
    destruct (String.leb k k''); constructor; assumption.
Qed.

Lemma sorted_ids_sorted (l : list string) :
  Sorted (fun a b => String.leb a b = true) (sorted_ids l).
Proof.
  induction l as [ | k l IH]; simpl; [constructor | ].
  apply insert_id_sorted, IH.
Qed.

(** X12: the ids evaluated by [evaluate_single_model] are exactly the ids
    present in both dictionaries, each once, in ascending order. *)
Theorem common_ids_spec (ground_truth model_output : dict string) :
  (forall k, In k (common_ids ground_truth model_output) <->
             In k (keys ground_truth) /\ In k (keys model_output)) /\
  NoDup (common_ids ground_truth model_output) /\
  Sorted (fun a b => String.leb a b = true)
         (common_ids ground_truth model_output).
Proof.
  unfold common_ids.
  set (both := nodup string_dec
                 (filter (fun k => existsb (String.eqb k) (keys model_output))
                         (keys ground_truth))).
  split; [ | split].
  - intros k. split.
    + intros H. apply (Permutation_in _ (Permutation_sym (sorted_ids_perm both))) in H.
      apply nodup_In, filter_In in H as [Hg Hm].
      split; [exact Hg | ].
      apply existsb_exists in Hm as (k' & Hin & E).
      apply String.eqb_eq in E. subst. exact Hin.
    + intros [Hg Hm].
      apply (Permutation_in _ (sorted_ids_perm both)).
      apply nodup_In, filter_In. split; [exact Hg | ].
      apply existsb_exists. exists k. split; [exact Hm | apply String.eqb_refl].
  - apply (Permutation_NoDup (sorted_ids_perm both)), NoDup_nodup.
  - apply sorted_ids_sorted.
Qed.

Lemma calculate_wer_returns (r h : string) :
  exists v, calculate_wer r h = Returns v.
Proof.
  unfold calculate_wer.
  destruct (py_not r || py_not h); [eauto | ].
  destruct (jiwer_wer r h); simpl; eauto.
Qed.

(** The rows of the ids that are keys of both dictionaries. *)
Lemma evaluate_rows_spec (ground_truth model_output : dict string)
    (model_name : string) (ids : list string) :
  (forall k, In k ids -> In k (keys ground_truth) /\ In k (keys model_output)) ->
  exists rows,
    evaluate_rows ground_truth model_output model_name ids = Ok rows /\
    Forall2 (fun file_id r =>
               exists ref_text hyp_text wer_score,
                 dict_get file_id ground_truth = Some ref_text /\
                 dict_get file_id model_output = Some hyp_text /\
                 calculate_wer ref_text hyp_text = Returns wer_score /\
                 r = result_row file_id ref_text hyp_text model_name wer_score)
            ids rows.
Proof.
  induction ids as [ | file_id ids IH]; intros Hin.
  - exists []. split; [reflexivity | constructor].
  - destruct (Hin file_id (or_introl eq_refl)) as [Hg Hm].
    apply dict_get_keys in Hg as [ref_text Hg].
    apply dict_get_keys in Hm as [hyp_text Hm].
    destruct (calculate_wer_returns ref_text hyp_text) as [v Hv].
    destruct IH as (rows & Hrows & Hall);
      [intros k Hk; apply Hin; right; exact Hk | ].
    exists (result_row file_id ref_text hyp_text model_name v :: rows).
    split.
    + cbn [evaluate_rows]. unfold dict_getitem.
      rewrite Hg, Hm, Hv, Hrows. reflexivity.
    + constructor; [ | exact Hall].
      exists ref_text, hyp_text, v. repeat split; assumption.
Qed.

(** X13: when every file of the two folders can be read,
    [evaluate_single_model] returns: no lookup fails with a [KeyError] and
    nothing is raised by the scoring.  It then returns one row per common
    id, in the order of the ids, and the row of an id is built from the
    two texts stored under that id and their score.  When a file cannot
    be read, the error of the first such file is what the call raises, the
    ground-truth folder being read first. *)
Theorem evaluate_single_model_rows (ground_truth_folder model_folder : folder)
    (model_name : string) :
  (forall gt mo,
     read_files ground_truth_folder = Ok gt ->
     read_files model_folder = Ok mo ->
     exists rows,
       evaluate_single_model ground_truth_folder model_folder model_name
         = Ok rows /\
       List.length rows =
         List.length (common_ids (load_text_files gt) (load_text_files mo)) /\
       Forall2 (fun file_id r =>
                  exists ref_text hyp_text wer_score,
                    dict_get file_id (load_text_files gt) = Some ref_text /\
                    dict_get file_id (load_text_files mo) = Some hyp_text /\
                    calculate_wer ref_text hyp_text = Returns wer_score /\
                    r = result_row file_id ref_text hyp_text model_name
                                   wer_score)
               (common_ids (load_text_files gt) (load_text_files mo)) rows) /\
  (forall e,
     read_files ground_truth_folder = Err e ->
     evaluate_single_model ground_truth_folder model_folder model_name
       = Err e) /\
  (forall gt e,
     read_files ground_truth_folder = Ok gt ->
     read_files model_folder = Err e ->
     evaluate_single_model ground_truth_folder model_folder model_name
       = Err e).
Proof.
  split; [ | split].
  - intros gt mo Hgt Hmo.
    destruct (evaluate_rows_spec (load_text_files gt) (load_text_files mo)
                model_name
                (common_ids (load_text_files gt) (load_text_files mo)))
      as (rows & Hrows & Hall).
    { intros k Hk. apply common_ids_spec, Hk. }
    exists rows. split; [ | split; [ | exact Hall]].
    + unfold evaluate_single_model, load_folder. rewrite Hgt, Hmo.
      destruct (common_ids (load_text_files gt) (load_text_files mo));
        [ | exact Hrows].
      simpl in Hrows. congruence.
    + symmetry. exact (Forall2_length Hall).
  - intros e He. unfold evaluate_single_model, load_folder.
    rewrite He. reflexivity.
  - intros gt e Hgt He. unfold evaluate_single_model, load_folder.
    rewrite Hgt, He. reflexivity.
Qed.

Lemma evaluate_single_model_rows_witness :
  (exists rows,
      evaluate_single_model
        [("1", Ok "the quick fox "); ("2", Ok "a b")]
        [("2", Ok " a b"); ("3", Ok "c")] "xtts" = Ok rows /\
      List.length rows = 1%nat) /\
  evaluate_single_model
    [("1", Ok "the quick fox "); ("2", Ok "a b")]
    [("2", Err (ReadError "xtts/2.txt")); ("3", Ok "c")] "xtts"
  = Err (ReadError "xtts/2.txt") /\
  evaluate_single_model
    [("1", Err (ReadError "ground-truth/1.txt")); ("2", Ok "a b")]
    [("2", Err (ReadError "xtts/2.txt")); ("3", Ok "c")] "xtts"
  = Err (ReadError "ground-truth/1.txt").
Proof.
  split; [ | split].
  - destruct (proj1 (evaluate_single_model_rows
                       [("1", Ok "the quick fox "); ("2", Ok "a b")]
                       [("2", Ok " a b"); ("3", Ok "c")] "xtts")
                    [("1", "the quick fox "); ("2", "a b")]
                    [("2", " a b"); ("3", "c")] eq_refl eq_refl)
      as (rows & Hrows & Hlen & _).
    exists rows. split; [exact Hrows | ].
    rewrite Hlen. vm_compute. reflexivity.
  - exact (proj2 (proj2 (evaluate_single_model_rows
                           [("1", Ok "the quick fox "); ("2", Ok "a b")]
                           [("2", Err (ReadError "xtts/2.txt")); ("3", Ok "c")]
                           "xtts"))
                 [("1", "the quick fox "); ("2", "a b")]
                 (ReadError "xtts/2.txt") eq_refl eq_refl).
  - exact (proj1 (proj2 (evaluate_single_model_rows
                           [("1", Err (ReadError "ground-truth/1.txt"));
                            ("2", Ok "a b")]
                           [("2", Err (ReadError "xtts/2.txt")); ("3", Ok "c")]
                           "xtts"))
                 (ReadError "ground-truth/1.txt") eq_refl).
Defined.

(** X14: in a row of the result the entry ['wer'] is the score whatever
    the model is called.  Under a model name other than ['id'],
    ['ground_truth'] and ['wer'] the row has the four entries id,
    reference text, model text and score, in this order; a model called
    ['id'] takes the place of the id, and the text of a model called
    ['wer'] is replaced by the score. *)
Theorem result_row_entries (file_id ref_text hyp_text model_name : string)
    (wer_score : R) :
  dict_get "wer" (result_row file_id ref_text hyp_text model_name wer_score)
    = Some (Score wer_score) /\
  (model_name <> "id" -> model_name <> "ground_truth" -> model_name <> "wer" ->
   result_row file_id ref_text hyp_text model_name wer_score =
   [("id", Text file_id); ("ground_truth", Text ref_text);
    (model_name, Text hyp_text); ("wer", Score wer_score)]) /\
  (model_name = "id" ->
   result_row file_id ref_text hyp_text model_name wer_score =
   [("id", Text hyp_text); ("ground_truth", Text ref_text);
    ("wer", Score wer_score)]) /\
  (model_name = "wer" ->
   result_row file_id ref_text hyp_text model_name wer_score =
   [("id", Text file_id); ("ground_truth", Text ref_text);
    ("wer", Score wer_score)]).
Proof.
  unfold result_row, dict_literal. cbn [fold_left fst snd].
  split; [rewrite dict_get_set; reflexivity | ].
  split; [ | split].
  - intros H1 H2 H3.
    replace (dict_set "ground_truth" (Text ref_text)
               (dict_set "id" (Text file_id) []))
      with [("id", Text file_id); ("ground_truth", Text ref_text)]
      by reflexivity.
    apply String.eqb_neq in H1, H2.
    assert (H3' : String.eqb "wer" model_name = false)
      by (apply String.eqb_neq; congruence).
    cbn [dict_set]. rewrite H1, H2. cbn [dict_set].
    change (String.eqb "wer" "id") with false.
    change (String.eqb "wer" "ground_truth") with false.
    cbn iota. rewrite H3'. reflexivity.
  - intros ->. reflexivity.
  - intros ->. reflexivity.
Qed.

Lemma result_row_entries_witness :
  result_row "7" "the fox" "a fox" "XTTS" 50 =
    [("id", Text "7"); ("ground_truth", Text "the fox");
     ("XTTS", Text "a fox"); ("wer", Score 50)] /\
  result_row "7" "the fox" "a fox" "wer" 50 =
    [("id", Text "7"); ("ground_truth", Text "the fox"); ("wer", Score 50)].
Proof.
  split.
  - apply (result_row_entries "7" "the fox" "a fox" "XTTS" 50); discriminate.
  - apply (result_row_entries "7" "the fox" "a fox" "wer" 50). reflexivity.
Defined.

End Evaluation.

(* ===================================================================== *)
(** * Order statistics                                                     *)
(* ===================================================================== *)

Section OrderStatistics.

Lemma fold_Rmin_spec (x : R) (s : list R) :
  Forall (fun y => fold_right Rmin x s <= y) (x :: s) /\
  In (fold_right Rmin x s) (x :: s).
Proof.
  induction s as [ | y s [IHall IHin]]; simpl.
  - split; [repeat constructor; lra | left; reflexivity].
  - inversion IHall as [ | ? ? Hx Hs]; subst.
    pose proof (Rmin_l y (fold_right Rmin x s)) as Hl.
    pose proof (Rmin_r y (fold_right Rmin x s)) as Hr.
    split.
    + constructor; [lra | ]. constructor; [exact Hl | ].
      eapply Forall_impl; [ | exact Hs]. intros z Hz. simpl in Hz. lra.
    + unfold Rmin at 1 3 5. destruct (Rle_dec y (fold_right Rmin x s)).
      * right. left. reflexivity.
      * destruct IHin as [E | Hin]; [left; exact E | right; right; exact Hin].
Qed.

Lemma fold_Rmax_spec (x : R) (s : list R) :
  Forall (fun y => y <= fold_right Rmax x s) (x :: s) /\
  In (fold_right Rmax x s) (x :: s).
Proof.
  induction s as [ | y s [IHall IHin]]; simpl.
  - split; [repeat constructor; lra | left; reflexivity].
  - inversion IHall as [ | ? ? Hx Hs]; subst.
    pose proof (Rmax_l y (fold_right Rmax x s)) as Hl.
    pose proof (Rmax_r y (fold_right Rmax x s)) as Hr.
    split.
    + constructor; [lra | ]. constructor; [exact Hl | ].
      eapply Forall_impl; [ | exact Hs]. intros z Hz. simpl in Hz. lra.
    + unfold Rmax at 1 3 5. destruct (Rle_dec y (fold_right Rmax x s)).
      * destruct IHin as [E | Hin]; [left; exact E | right; right; exact Hin].
      * right. left. reflexivity.
Qed.

Lemma insert_sorted_perm (x : R) (l : list R) :
  Permutation (x :: l) (insert_sorted x l).
Proof.
  induction l as [ | y l IH]; simpl; [reflexivity | ].
  destruct (Rle_dec x y); [reflexivity | ].
  rewrite perm_swap. apply perm_skip, IH.
Qed.

Lemma np_sort_perm (s : Series) : Permutation s (np_sort s).
Proof.
  induction s as [ | x s IH]; simpl; [constructor | ].
  rewrite <- insert_sorted_perm. apply perm_skip, IH.
Qed.

Lemma insert_sorted_sorted (x : R) (l : list R) :
  StronglySorted Rle l -> StronglySorted Rle (insert_sorted x l).
Proof.
  induction 1 as [ | y l Hs IH Hy]; simpl; [repeat constructor | ].
  destruct (Rle_dec x y) as [Hxy | Hxy].
  - constructor; [constructor; assumption | ].
    constructor; [exact Hxy | ].
    eapply Forall_impl; [ | exact Hy]. intros z Hz. simpl in Hz. lra.
  - constructor; [exact IH | ].
    apply (Permutation_Forall (insert_sorted_perm x l)).
    constructor; [lra | exact Hy].
Qed.

Lemma np_sort_sorted (s : Series) : StronglySorted Rle (np_sort s).
Proof.
  induction s as [ | x s IH]; simpl; [constructor | ].
  apply insert_sorted_sorted, IH.
Qed.

Lemma np_sort_length (s : Series) : List.length (np_sort s) = len s.
Proof. symmetry. apply Permutation_length, np_sort_perm. Qed.

(** The order statistics increase with their rank. *)
Lemma sorted_nth_mono (l : list R) :
  StronglySorted Rle l ->
  forall i j, (i <= j < List.length l)%nat -> nth i l 0 <= nth j l 0.
Proof.
  induction 1 as [ | x l Hs IH Hx]; intros i j Hij; [simpl in Hij; lia | ].
  destruct i as [ | i], j as [ | j]; simpl in Hij |- *; try lra; try lia.
  - rewrite Forall_forall in Hx. apply Hx, nth_In. lia.
  - apply IH. lia.
Qed.

(** An order statistic lies between the minimum and the maximum. *)
Lemma np_sort_nth_bounds (x : R) (s : list R) (i : nat) :
  (i < len (x :: s))%nat ->
  fold_right Rmin x s <= nth i (np_sort (x :: s)) 0 <= fold_right Rmax x s.
Proof.
  intros Hi.
  assert (Hin : In (nth i (np_sort (x :: s)) 0) (x :: s)).
  { apply (Permutation_in _ (Permutation_sym (np_sort_perm (x :: s)))).
    apply nth_In. rewrite np_sort_length. exact Hi. }
  destruct (fold_Rmin_spec x s) as [Hmin _].
  destruct (fold_Rmax_spec x s) as [Hmax _].
  rewrite Forall_forall in Hmin, Hmax.
  split; [apply Hmin | apply Hmax]; exact Hin.
Qed.

(** The position of a quantile and its integer part. *)
Lemma quantile_position (n : nat) (q : R) :
  (1 <= n)%nat -> 0 <= q <= 1 ->
  let pos := (INR n - 1) * q in
  let lo := Z.to_nat (Zfloor pos) in
  (lo <= n - 1)%nat /\ INR lo <= pos < INR lo + 1.
Proof.
  intros Hn Hq. cbn zeta.
  set (pos := (INR n - 1) * q).
  assert (Hn1 : 1 <= INR n) by (change 1 with (INR 1); apply le_INR; exact Hn).
  assert (Hpos : 0 <= pos <= INR n - 1) by (unfold pos; nra).
  pose proof (Zfloor_bound pos) as Hb.
  assert (H0 : (0 <= Zfloor pos)%Z) by (apply Zfloor_lub; simpl; lra).
  assert (Hlo : INR (Z.to_nat (Zfloor pos)) = IZR (Zfloor pos))
    by (rewrite INR_IZR_INZ, Z2Nat.id by exact H0; reflexivity).
  split; [ | rewrite Hlo; exact Hb].
  apply INR_le. rewrite Hlo, minus_INR by exact Hn. simpl. lra.
Qed.

(** The value of a quantile, with the bounds it is interpolated from. *)
Lemma pd_quantile_value (s : Series) (q : R) :
  s <> [] -> 0 <= q <= 1 ->
  exists (lo : nat) (v : R),
    let hi := Nat.min (S lo) (len s - 1) in
    pd_quantile s q = Fin v /\
    (lo <= len s - 1)%nat /\
    INR lo <= (INR (len s) - 1) * q < INR lo + 1 /\
    v = nth lo (np_sort s) 0 +
        (nth hi (np_sort s) 0 - nth lo (np_sort s) 0) *
        ((INR (len s) - 1) * q - INR lo) /\
    nth lo (np_sort s) 0 <= v <= nth hi (np_sort s) 0.
Proof.
  intros Hs Hq.
  assert (Hn : (1 <= len s)%nat) by (destruct s; [congruence | simpl; lia]).
  destruct (quantile_position (len s) q Hn Hq) as [Hlo Hfrac].
  set (pos := (INR (len s) - 1) * q) in *.
  set (lo := Z.to_nat (Zfloor pos)) in *.
  exists lo, (nth lo (np_sort s) 0 +
              (nth (Nat.min (S lo) (len s - 1)) (np_sort s) 0
               - nth lo (np_sort s) 0) * (pos - INR lo)).
  cbn zeta.
  assert (Hm : nth lo (np_sort s) 0 <=
               nth (Nat.min (S lo) (len s - 1)) (np_sort s) 0).
  { apply sorted_nth_mono; [apply np_sort_sorted | ].
    rewrite np_sort_length. lia. }
  split; [destruct s; [congruence | reflexivity] | ].
  split; [exact Hlo | ].
  split; [exact Hfrac | ]. split; [reflexivity | ].
  split; nra.
Qed.

(** Quantiles increase with their level. *)
Lemma pd_quantile_mono (s : Series) (q1 q2 a b : R) :
  s <> [] -> 0 <= q1 -> q1 <= q2 -> q2 <= 1 ->
  pd_quantile s q1 = Fin a -> pd_quantile s q2 = Fin b -> a <= b.
Proof.
  intros Hs H0 H12 H1 Ea Eb.
  assert (Hn : (1 <= len s)%nat) by (destruct s; [congruence | simpl; lia]).
  assert (Hn1 : 1 <= INR (len s))
    by (change 1 with (INR 1); apply le_INR; exact Hn).
  destruct (pd_quantile_value s q1 Hs ltac:(lra))
    as (lo1 & v1 & E1 & Hr1 & Hf1 & Hv1 & Hb1).
  destruct (pd_quantile_value s q2 Hs ltac:(lra))
    as (lo2 & v2 & E2 & Hr2 & Hf2 & Hv2 & Hb2).
  rewrite E1 in Ea. rewrite E2 in Eb.
  injection Ea as <-. injection Eb as <-.
  assert (Hpos : (INR (len s) - 1) * q1 <= (INR (len s) - 1) * q2) by nra.
  assert (Hlo : (lo1 <= lo2)%nat).
  { destruct (Nat.le_gt_cases lo1 lo2) as [H | H]; [exact H | ].
    assert (H' : (S lo2 <= lo1)%nat) by lia.
    apply le_INR in H'. rewrite S_INR in H'. lra. }
  pose proof (np_sort_sorted s) as Hsorted.
  pose proof (np_sort_length s) as Hlen.
  destruct (Nat.eq_dec lo1 lo2) as [E | NE].
  - subst lo2. rewrite Hv1, Hv2.
    assert (Hd : 0 <= nth (Nat.min (S lo1) (len s - 1)) (np_sort s) 0
                      - nth lo1 (np_sort s) 0) by lra.
    nra.
  - assert (Hstep : nth (Nat.min (S lo1) (len s - 1)) (np_sort s) 0
                    <= nth lo2 (np_sort s) 0).
    { apply sorted_nth_mono; [exact Hsorted | ]. rewrite Hlen. lia. }
    lra.
Qed.

Lemma quantile_lo (n k : nat) (q : R) :
  INR k <= (INR n - 1) * q < INR k + 1 ->
  Z.to_nat (Zfloor ((INR n - 1) * q)) = k.
Proof.
  intros H.
  assert (E : Zfloor ((INR n - 1) * q) = Z.of_nat k)
    by (apply Zfloor_eq; rewrite <- INR_IZR_INZ; exact H).
  rewrite E. apply Nat2Z.id.
Qed.

(** The median is the quantile of level one half. *)
Lemma pd_median_quantile (s : Series) : pd_median s = pd_quantile s (1 / 2).
Proof.
  destruct s as [ | x s]; [reflexivity | ].
  unfold pd_median, pd_quantile.
  set (n := len (x :: s)). set (S' := np_sort (x :: s)).
  assert (Hn : (1 <= n)%nat) by (unfold n; simpl; lia).
  clearbody n S'.
  destruct (Nat.even n) eqn:Ev.
  - apply Nat.even_spec in Ev as [m Hm].
    assert (Hm1 : (1 <= m)%nat) by lia.
    assert (EI : INR n = 2 * INR m) by (rewrite Hm, mult_INR; simpl; lra).
    assert (EI1 : INR (m - 1) = INR m - 1)
      by (rewrite minus_INR by exact Hm1; simpl; lra).
    assert (Hd : (n / 2 = m)%nat)
      by (rewrite Hm, Nat.mul_comm; apply Nat.div_mul; lia).
    rewrite (quantile_lo n (m - 1)) by (rewrite EI, EI1; lra).
    rewrite Hd.
    replace (Nat.min (S (m - 1)) (n - 1)) with m by lia.
    f_equal. rewrite EI, EI1. field.
  - assert (Od : Nat.odd n = true)
      by (rewrite <- Nat.negb_even, Ev; reflexivity).
    apply Nat.odd_spec in Od as [m Hm].
    assert (EI : INR n = 2 * INR m + 1)
      by (rewrite Hm, plus_INR, mult_INR; simpl; lra).
    assert (Hd : (n / 2 = m)%nat)
      by (symmetry; apply (Nat.div_unique _ _ _ 1); lia).
    rewrite (quantile_lo n m) by (rewrite EI; lra).
    rewrite Hd.
    f_equal. rewrite EI. field.
Qed.

End OrderStatistics.

(* ===================================================================== *)
(** * Invariants of the statistics                                         *)
(* ===================================================================== *)

Section StatisticsInvariants.

Ltac entries' :=
  cbn [round_floats stats_literal round_entry
       Stats.count Stats.mean Stats.median Stats.std Stats.variance
       Stats.min Stats.max Stats.range Stats.q1 Stats.q3 Stats.iqr
       Stats.p5 Stats.p95 Stats.skewness Stats.kurtosis Stats.cv Stats.sem
       Stats.ci_95_lower Stats.ci_95_upper
       Stats.excellent_count Stats.good_count Stats.fair_count
       Stats.poor_count Stats.excellent_pct Stats.good_pct Stats.fair_pct
       Stats.poor_pct].

Lemma pd_quantile_bounds (x : R) (s : list R) (q : R) :
  0 <= q <= 1 ->
  exists v, pd_quantile (x :: s) q = Fin v /\
            fold_right Rmin x s <= v <= fold_right Rmax x s.
Proof.
  intros Hq.
  destruct (pd_quantile_value (x :: s) q ltac:(discriminate) Hq)
    as (lo & v & E & Hlo & _ & _ & Hb).
  exists v. split; [exact E | ].
  assert (H1 : (lo < len (x :: s))%nat) by (rewrite len_cons in *; lia).
  assert (H2 : (Nat.min (S lo) (len (x :: s) - 1) < len (x :: s))%nat)
    by (rewrite len_cons; lia).
  pose proof (np_sort_nth_bounds x s lo H1).
  pose proof (np_sort_nth_bounds x s _ H2).
  lra.
Qed.

(** X15: in the dictionary of a non-empty series the location entries are
    ordered: [min <= p5 <= q1 <= median <= q3 <= p95 <= max]. *)
Theorem quantiles_ordered (l : Series) :
  l <> [] ->
  fle (Stats.min (round_floats (stats_literal l)))
      (Stats.p5 (round_floats (stats_literal l))) /\
  fle (Stats.p5 (round_floats (stats_literal l)))
      (Stats.q1 (round_floats (stats_literal l))) /\
  fle (Stats.q1 (round_floats (stats_literal l)))
      (Stats.median (round_floats (stats_literal l))) /\
  fle (Stats.median (round_floats (stats_literal l)))
      (Stats.q3 (round_floats (stats_literal l))) /\
  fle (Stats.q3 (round_floats (stats_literal l)))
      (Stats.p95 (round_floats (stats_literal l))) /\
  fle (Stats.p95 (round_floats (stats_literal l)))
      (Stats.max (round_floats (stats_literal l))).
Proof.
  intros Hl. destruct l as [ | x s]; [congruence | ].
  entries'. rewrite pd_median_quantile.
  destruct (pd_quantile_bounds x s (5 / 100) ltac:(lra)) as (a & Ea & Ha).
  destruct (pd_quantile_bounds x s (25 / 100) ltac:(lra)) as (b & Eb & Hb).
  destruct (pd_quantile_bounds x s (1 / 2) ltac:(lra)) as (c & Ec & Hc).
  destruct (pd_quantile_bounds x s (75 / 100) ltac:(lra)) as (d & Ed & Hd).
  destruct (pd_quantile_bounds x s (95 / 100) ltac:(lra)) as (e & Ee & He).
  pose proof (pd_quantile_mono (x :: s) (5 / 100) (25 / 100) a b Hl ltac:(lra) ltac:(lra)
                ltac:(lra) Ea Eb).
  pose proof (pd_quantile_mono (x :: s) (25 / 100) (1 / 2) b c Hl ltac:(lra) ltac:(lra)
                ltac:(lra) Eb Ec).
  pose proof (pd_quantile_mono (x :: s) (1 / 2) (75 / 100) c d Hl ltac:(lra) ltac:(lra)
                ltac:(lra) Ec Ed).
  pose proof (pd_quantile_mono (x :: s) (75 / 100) (95 / 100) d e Hl ltac:(lra) ltac:(lra)
                ltac:(lra) Ed Ee).
  rewrite Ea, Eb, Ec, Ed, Ee. cbn [pd_min pd_max fround lift1 fle].
  repeat split; apply py_round_mono; lra.
Qed.

Lemma quantiles_ordered_witness :
  fle (Stats.q1 (round_floats (stats_literal [5; 8; 12; 22; 35])))
      (Stats.median (round_floats (stats_literal [5; 8; 12; 22; 35]))) /\
  fle (Stats.median (round_floats (stats_literal [5; 8; 12; 22; 35])))
      (Stats.q3 (round_floats (stats_literal [5; 8; 12; 22; 35]))).
Proof.
  assert (H : [5; 8; 12; 22; 35] <> []) by discriminate.
  destruct (quantiles_ordered [5; 8; 12; 22; 35] H) as (_ & _ & H3 & H4 & _).
  split; [exact H3 | exact H4].
Defined.

(** X16: in the dictionary of a non-empty series the mean lies between the
    minimum and the maximum, and the range and the interquartile range are
    not negative. *)
Theorem mean_within_range (l : Series) :
  l <> [] ->
  fle (Stats.min (round_floats (stats_literal l)))
      (Stats.mean (round_floats (stats_literal l))) /\
  fle (Stats.mean (round_floats (stats_literal l)))
      (Stats.max (round_floats (stats_literal l))) /\
  fle (Fin 0) (Stats.range (round_floats (stats_literal l))) /\
  fle (Fin 0) (Stats.iqr (round_floats (stats_literal l))).
Proof.
  intros Hl. destruct l as [ | x s]; [congruence | ].
  entries'.
  destruct (fold_Rmin_spec x s) as [Hmin _].
  destruct (fold_Rmax_spec x s) as [Hmax Hin].
  pose proof (mean_lower _ (x :: s) Hl Hmin) as Hlo.
  pose proof (mean_upper _ (x :: s) Hl Hmax) as Hhi.
  destruct (pd_quantile_bounds x s (25 / 100) ltac:(lra)) as (b & Eb & Hb).
  destruct (pd_quantile_bounds x s (75 / 100) ltac:(lra)) as (d & Ed & Hd).
  pose proof (pd_quantile_mono (x :: s) (25 / 100) (75 / 100) b d Hl ltac:(lra) ltac:(lra)
                ltac:(lra) Eb Ed).
  rewrite Eb, Ed, pd_mean_nonempty by (simpl; lia).
  cbn [pd_min pd_max fround lift1 fsub lift2 fle].
  split; [apply py_round_mono; exact Hlo | ].
  split; [apply py_round_mono; exact Hhi | ].
  split; (apply Rle_trans with (py_round 0 4);
          [rewrite py_round_0; lra | apply py_round_mono; lra]).
Qed.

Lemma mean_within_range_witness :
  fle (Stats.min (round_floats (stats_literal [5; 8; 12; 22; 35])))
      (Stats.mean (round_floats (stats_literal [5; 8; 12; 22; 35]))) /\
  fle (Stats.mean (round_floats (stats_literal [5; 8; 12; 22; 35])))
      (Stats.max (round_floats (stats_literal [5; 8; 12; 22; 35]))).
Proof.
  assert (H : [5; 8; 12; 22; 35] <> []) by discriminate.
  destruct (mean_within_range [5; 8; 12; 22; 35] H) as (H1 & H2 & _).
  split; [exact H1 | exact H2].
Defined.

Lemma Rsum_nonneg (l : list R) : Forall (fun x => 0 <= x) l -> 0 <= Rsum l.
Proof. induction 1 as [ | x l Hx _ IH]; simpl; lra. Qed.

Lemma moment_sum_2_nonneg (s : Series) : 0 <= moment_sum 2 s.
Proof.
  unfold moment_sum. apply Rsum_nonneg, Forall_map, Forall_forall.
  intros x _. apply pow2_ge_0.
Qed.

(** X17: from two scores on, the variance, the standard deviation and the
    standard error of the dictionary are numbers that are not negative,
    and the standard error does not exceed the standard deviation. *)
Theorem dispersion_nonnegative (l : Series) :
  (2 <= len l)%nat ->
  fle (Fin 0) (Stats.variance (round_floats (stats_literal l))) /\
  fle (Fin 0) (Stats.std (round_floats (stats_literal l))) /\
  fle (Fin 0) (Stats.sem (round_floats (stats_literal l))) /\
  fle (Stats.sem (round_floats (stats_literal l)))
      (Stats.std (round_floats (stats_literal l))).
Proof.
  intros Hn. entries'. unfold pd_std, pd_sem. rewrite (pd_var_long l Hn).
  cbn [fsqrt fdiv fround lift1 lift2 fle].
  set (v := moment_sum 2 l / (INR (len l) - 1)).
  assert (Hn2 : 2 <= INR (len l))
    by (change 2 with (INR 2); apply le_INR; exact Hn).
  assert (Hv : 0 <= v).
  { unfold v. apply Rmult_le_pos; [apply moment_sum_2_nonneg | ].
    left. apply Rinv_0_lt_compat. lra. }
  assert (Hs : 0 <= sqrt v) by apply sqrt_pos.
  assert (Hr : 1 <= sqrt (INR (len l))).
  { rewrite <- sqrt_1. apply sqrt_le_1_alt. lra. }
  assert (He : 0 <= sqrt v / sqrt (INR (len l)) <= sqrt v).
  { split.
    - apply Rmult_le_pos; [exact Hs | ].
      left. apply Rinv_0_lt_compat. lra.
    - apply (Rmult_le_reg_r (sqrt (INR (len l)))); [lra | ].
      replace (sqrt v / sqrt (INR (len l)) * sqrt (INR (len l)))
        with (sqrt v) by (field; lra).
      nra. }
  assert (Z4 : forall y, 0 <= y -> 0 <= py_round y 4).
  { intros y Hy. apply Rle_trans with (py_round 0 4);
      [rewrite py_round_0; lra | apply py_round_mono, Hy]. }
  split; [apply Z4, Hv | ]. split; [apply Z4, Hs | ].
  split; [apply Z4, He | apply py_round_mono, He].
Qed.

Lemma dispersion_nonnegative_witness :
  fle (Fin 0) (Stats.std (round_floats (stats_literal [5; 8; 12; 22; 35]))) /\
  fle (Stats.sem (round_floats (stats_literal [5; 8; 12; 22; 35])))
      (Stats.std (round_floats (stats_literal [5; 8; 12; 22; 35]))).
Proof.
  assert (H : Nat.le 2 (len [5; 8; 12; 22; 35])) by (simpl; lia).
  destruct (dispersion_nonnegative [5; 8; 12; 22; 35] H) as (_ & H2 & _ & H4).
  split; [exact H2 | exact H4].
Defined.

(** X18: each of the four category percentages of a non-empty series is a
    number between 0 and 100. *)
Theorem band_pct_range (l : Series) :
  l <> [] ->
  forall pct,
    In pct [Stats.excellent_pct (round_floats (stats_literal l));
            Stats.good_pct (round_floats (stats_literal l));
            Stats.fair_pct (round_floats (stats_literal l));
            Stats.poor_pct (round_floats (stats_literal l))] ->
    fle (Fin 0) pct /\ fle pct (Fin 100).
Proof.
  intros Hl.
  assert (Hn : (1 <= len l)%nat) by (destruct l; [congruence | simpl; lia]).
  assert (Hp : 0 < INR (len l)) by (apply lt_0_INR; lia).
  assert (B : forall p, 
             fle (Fin 0) (fround (band_pct p l) 4) /\
             fle (fround (band_pct p l) 4) (Fin 100)).
  { intros p. rewrite (band_pct_nonempty p l Hn). cbn [fround lift1 fle].
    assert (Hc : 0 <= INR (mask_sum p l) <= INR (len l)).
    { split; [apply pos_INR | ]. apply le_INR. unfold mask_sum, len.
      apply filter_length_le. }
    pose proof (ratio_le_1 _ _ Hp (proj2 Hc)) as H1.
    assert (H0 : 0 <= INR (mask_sum p l) / INR (len l)).
    { apply Rmult_le_pos; [tauto | left; apply Rinv_0_lt_compat, Hp]. }
    split.
    - apply Rle_trans with (py_round 0 4);
        [rewrite py_round_0; lra | apply py_round_mono; lra].
    - apply Rle_trans with (py_round (IZR 100) 4);
        [apply py_round_mono; lra | rewrite py_round_const; lra]. }
  entries'. intros pct [<- | [<- | [<- | [<- | []]]]]; apply B.
Qed.

Lemma band_pct_range_witness :
  fle (Fin 0) (Stats.good_pct (round_floats (stats_literal [5; 15; 25]))) /\
  fle (Stats.good_pct (round_floats (stats_literal [5; 15; 25]))) (Fin 100).
Proof.
  assert (H : [5; 15; 25] <> []) by discriminate.
  apply (band_pct_range [5; 15; 25] H). right. left. reflexivity.
Defined.

(** X19: for a series of at least two equal scores [c] the dictionary
    shows no dispersion: variance, standard deviation, standard error and
    range are 0, and both bounds of the confidence interval coincide with
    the mean, which is [c] rounded. *)
Theorem constant_series (c : R) (l : Series) :
  (2 <= len l)%nat -> Forall (fun x => x = c) l ->
  Stats.mean (round_floats (stats_literal l)) = Fin (py_round c 4) /\
  Stats.variance (round_floats (stats_literal l)) = Fin 0 /\
  Stats.std (round_floats (stats_literal l)) = Fin 0 /\
  Stats.sem (round_floats (stats_literal l)) = Fin 0 /\
  Stats.range (round_floats (stats_literal l)) = Fin 0 /\
  Stats.ci_95_lower (round_floats (stats_literal l)) = Fin (py_round c 4) /\
  Stats.ci_95_upper (round_floats (stats_literal l)) = Fin (py_round c 4).
Proof.
  intros Hn Hall.
  assert (Hl : l <> []) by (destruct l; [simpl in Hn; lia | discriminate]).
  assert (Hm : pd_mean l = Fin c)
    by (rewrite pd_mean_nonempty by lia; rewrite (mean_constant c l Hl Hall);
        reflexivity).
  assert (Hv : pd_var l = Fin 0).
  { rewrite (pd_var_long l Hn), (moment_sum_constant 1 c l Hl Hall).
    f_equal. unfold Rdiv. ring. }
  assert (Hstd : pd_std l = Fin 0)
    by (unfold pd_std; rewrite Hv; cbn [fsqrt lift1]; rewrite sqrt_0;
        reflexivity).
  assert (Hsem : pd_sem l = Fin 0).
  { unfold pd_sem. rewrite Hv. cbn [fsqrt fdiv lift1 lift2].
    rewrite sqrt_0. f_equal. unfold Rdiv. ring. }
  assert (Hrange : fsub (pd_max l) (pd_min l) = Fin 0).
  { destruct l as [ | x s]; [congruence | ]. cbn [pd_max pd_min fsub lift2].
    destruct (fold_Rmin_spec x s) as [_ Hmin].
    destruct (fold_Rmax_spec x s) as [_ Hmax].
    rewrite Forall_forall in Hall.
    rewrite (Hall _ Hmin), (Hall _ Hmax). f_equal. ring. }
  entries'. rewrite Hm, Hv, Hstd, Hsem, Hrange.
  cbn [fround lift1 fsub fadd fmul lift2]. rewrite !py_round_0.
  replace (c - 196 / 100 * 0) with c by ring.
  replace (c + 196 / 100 * 0) with c by ring.
  repeat (split; [reflexivity | ]). reflexivity.
Qed.

Lemma constant_series_witness :
  Stats.variance (round_floats (stats_literal [12; 12; 12; 12])) = Fin 0 /\
  Stats.std (round_floats (stats_literal [12; 12; 12; 12])) = Fin 0 /\
  Stats.ci_95_lower (round_floats (stats_literal [12; 12; 12; 12]))
    = Fin (py_round 12 4) /\
  Stats.ci_95_upper (round_floats (stats_literal [12; 12; 12; 12]))
    = Fin (py_round 12 4).
Proof.
  assert (Hn : Nat.le 2 (len [12; 12; 12; 12])) by (simpl; lia).
  assert (Hall : Forall (fun x => x = 12) [12; 12; 12; 12])
    by (repeat constructor).
  destruct (constant_series 12 [12; 12; 12; 12] Hn Hall)
    as (_ & H2 & H3 & _ & _ & H6 & H7).
  split; [exact H2 | ]. split; [exact H3 | ]. split; [exact H6 | exact H7].
Defined.

End StatisticsInvariants.

(* ===================================================================== *)
(** * The score as a function of the words                                 *)
(* ===================================================================== *)

Section ScoreOfWords.

Local Open Scope string_scope.

(** The score in terms of the two lists of words. *)
Lemma calculate_wer_by_words (r h : string) :
  calculate_wer r h =
  Returns match split r, split h with
          | [], _ => 100
          | _ :: _, [] => 100
          | _ :: _, _ :: _ =>
              py_round (INR (levenshtein (split r) (split h))
                        / INR (List.length (split r)) * 100) 2
          end.
Proof.
  destruct (split r) as [ | w ws] eqn:Er;
    [apply calculate_wer_no_reference_word, Er | ].
  assert (Nr : py_not r = false).
  { destruct r; [discriminate Er | reflexivity]. }
  destruct (py_not h) eqn:Nh.
  - apply py_not_true in Nh. subst h.
    unfold calculate_wer. rewrite Nr. reflexivity.
  - rewrite (calculate_wer_words r h w ws Nr Nh Er), Er.
    destruct (split h) as [ | v vs] eqn:Eh; [ | reflexivity].
    rewrite levenshtein_nil_r.
    rewrite (py_round_2_of_ratio _ _ 10000) by (simpl; lia).
    f_equal. lra.
Qed.

(** X21: a score is never negative, it is a whole number of hundredths,
    and it is at most 100 when the hypothesis has no more words than the
    reference; words in excess in the hypothesis can take it above
    100. *)
Theorem calculate_wer_bounds (r h : string) (v : R) :
  calculate_wer r h = Returns v ->
  0 <= v /\
  (exists z : Z, v = IZR z / 100) /\
  ((List.length (split h) <= List.length (split r))%nat -> v <= 100).
Proof.
  intros Hv.
  destruct (calculate_wer_range r h v Hv) as [H0 H100].
  split; [exact H0 | ]. split; [ | exact H100].
  rewrite calculate_wer_by_words in Hv. apply Returns_inj in Hv. subst v.
  assert (E : forall x, exists z : Z, py_round x 2 = IZR z / 100).
  { intros x. exists (round_half_even (x * 10 ^ 2)). unfold py_round.
    f_equal. cbn [pow]. lra. }
  destruct (split r); [exists 10000%Z; lra | ].
  destruct (split h); [exists 10000%Z; lra | apply E].
Qed.

Lemma calculate_wer_bounds_witness :
  exists v,
    calculate_wer "the quick brown fox" "the quick fox" = Returns v /\
    0 <= v <= 100.
Proof.
  destruct (calculate_wer_returns "the quick brown fox" "the quick fox")
    as [v Hv].
  exists v. split; [exact Hv | ].
  destruct (calculate_wer_bounds _ _ v Hv) as (H0 & _ & H100).
  split; [exact H0 | ]. apply H100.
  replace (split "the quick fox") with ["the"; "quick"; "fox"] by reflexivity.
  replace (split "the quick brown fox")
    with ["the"; "quick"; "brown"; "fox"] by reflexivity.
  simpl. lia.
Defined.

End ScoreOfWords.

(* ===================================================================== *)
(** * The model name of a result file                                      *)
(* ===================================================================== *)

Section ModelName.

Local Open Scope string_scope.

(** ["_wer"] does not start inside a text and end in a copy of itself
    appended to it. *)
Lemma prefix_wer_app (c : ascii) (s : string) :
  String.prefix "_wer" (String c s) = false ->
  String.prefix "_wer" (String c s ++ "_wer") = false.
Proof.
  cbn [String.prefix append].
  destruct (ascii_dec "_" c) as [_ | _]; [ | reflexivity].
  destruct s as [ | c2 s]; [intros _; reflexivity | ].
  cbn [String.prefix append].
  destruct (ascii_dec "w" c2) as [_ | _]; [ | reflexivity].
  destruct s as [ | c3 s]; [intros _; reflexivity | ].
  cbn [String.prefix append].
  destruct (ascii_dec "e" c3) as [_ | _]; [ | reflexivity].
  destruct s as [ | c4 s]; [intros _; reflexivity | ].
  cbn [String.prefix append].
  destruct (ascii_dec "r" c4) as [_ | _]; [ | reflexivity].
  destruct s; intros H; discriminate H.
Qed.

Lemma remove_all_fuel_app (name : string) :
  contains "_wer" name = false ->
  forall fuel,
    (String.length (name ++ "_wer") <= fuel)%nat ->
    remove_all_fuel fuel "_wer" (name ++ "_wer") = name.
Proof.
  induction name as [ | c name IH]; intros Hc fuel Hf.
  - destruct fuel as [ | fuel]; [simpl in Hf; lia | ].
    destruct fuel; reflexivity.
  - cbn [contains] in Hc. apply orb_false_iff in Hc as [Hp Hc].
    destruct fuel as [ | fuel]; [simpl in Hf; lia | ].
    pose proof (prefix_wer_app c name Hp) as Hp'.
    change (String c name ++ "_wer") with (String c (name ++ "_wer")) in *.
    cbn [remove_all_fuel]. rewrite Hp'.
    rewrite (IH Hc fuel) by (simpl in Hf; lia). reflexivity.
Qed.

Lemma model_name_of_stem_app (name : string) :
  contains "_wer" name = false ->
  model_name_of_stem (name ++ "_wer") = name.
Proof.
  intros Hc. unfold model_name_of_stem.
  apply remove_all_fuel_app; [exact Hc | lia].
Qed.

Lemma append_String (a : string) (c : ascii) (b : string) :
  (a ++ String c EmptyString) ++ b = a ++ String c b.
Proof. induction a as [ | x a IH]; [reflexivity | ]. simpl. rewrite IH. reflexivity. Qed.

Lemma append_assoc3 (a b c : string) : (a ++ b) ++ c = a ++ (b ++ c).
Proof. induction a as [ | x a IH]; [reflexivity | ]. simpl. rewrite IH. reflexivity. Qed.

Lemma occurs_app (c : ascii) (a b : string) :
  occurs c (a ++ b) = occurs c a || occurs c b.
Proof.
  induction a as [ | x a IH]; [reflexivity | ].
  simpl. rewrite IH. apply orb_assoc.
Qed.

Lemma ends_with_split (c : ascii) (a : string) :
  ends_with c a = true -> exists d, a = d ++ String c EmptyString.
Proof.
  induction a as [ | x a IH]; [discriminate | ].
  destruct a as [ | y a].
  - cbn [ends_with]. intros E. apply Ascii.eqb_eq in E. subst x.
    exists EmptyString. reflexivity.
  - intros E. change (ends_with c (String y a) = true) in E.
    destruct (IH E) as [d Hd]. exists (String x d). simpl. rewrite <- Hd.
    reflexivity.
Qed.

Lemma ends_with_app (c : ascii) (a : string) (x : ascii) (b : string) :
  ends_with c (a ++ String x b) = ends_with c (String x b).
Proof.
  induction a as [ | y a IH]; [reflexivity | ].
  change (String y a ++ String x b) with (String y (a ++ String x b)).
  destruct (a ++ String x b) as [ | z t] eqn:E.
  - destruct a; discriminate E.
  - cbn [ends_with]. cbn [ends_with] in IH. exact IH.
Qed.

(** The name of a path is what follows its last separator. *)
Lemma path_name_no_separator (f : string) :
  occurs "/" f = false -> path_name f = f.
Proof.
  destruct f as [ | c f]; [reflexivity | ].
  cbn [occurs path_name]. intros H. apply orb_false_iff in H as [Hc Hf].
  rewrite Hf, Hc. reflexivity.
Qed.

Lemma path_name_app (d f : string) :
  occurs "/" f = false -> path_name (d ++ String "/" f) = f.
Proof.
  intros Hf. induction d as [ | c d IH].
  - cbn [append path_name]. rewrite Hf. reflexivity.
  - change (String c d ++ String "/" f) with (String c (d ++ String "/" f)).
    cbn [path_name]. rewrite occurs_app. cbn [occurs].
    rewrite Ascii.eqb_refl, orb_true_r. exact IH.
Qed.

Lemma path_name_join (a f : string) :
  occurs "/" f = false -> path_name (os_path_join a f) = f.
Proof.
  intros Hf. unfold os_path_join.
  assert (J : path_name
                (if py_not a || ends_with "/" a then a ++ f else a ++ "/" ++ f)
              = f).
  { destruct a as [ | c a].
    - apply path_name_no_separator, Hf.
    - cbn [py_not orb].
      destruct (ends_with "/" (String c a)) eqn:E.
      + destruct (ends_with_split _ _ E) as [d ->].
        rewrite append_String. apply path_name_app, Hf.
      + apply path_name_app, Hf. }
  destruct f as [ | c f]; [exact J | ].
  cbn [occurs] in Hf. apply orb_false_iff in Hf as [Hc _].
  destruct c as [b0 b1 b2 b3 b4 b5 b6 b7].
  destruct b0, b1, b2, b3, b4, b5, b6, b7; try exact J.
  discriminate Hc.
Qed.

Lemma before_last_dot_no_dot (t : string) :
  occurs "." t = false -> before_last_dot t = None.
Proof.
  induction t as [ | c t IH]; [reflexivity | ].
  cbn [occurs before_last_dot]. intros H.
  apply orb_false_iff in H as [Hc Ht]. rewrite (IH Ht), Hc. reflexivity.
Qed.

Lemma before_last_dot_app (stem t : string) :
  occurs "." t = false ->
  before_last_dot (stem ++ String "." t) = Some stem.
Proof.
  intros Ht. induction stem as [ | c stem IH].
  - cbn [append before_last_dot].
    rewrite (before_last_dot_no_dot t Ht). reflexivity.
  - change (String c stem ++ String "." t)
      with (String c (stem ++ String "." t)).
    cbn [before_last_dot]. rewrite IH. reflexivity.
Qed.

(** The stem of a file name [<stem>.csv] with a non-empty stem. *)
Lemma path_stem_csv (a stem : string) :
  occurs "/" stem = false -> stem <> "" ->
  path_stem (os_path_join a (stem ++ ".csv")) = stem.
Proof.
  intros Hs Hne. unfold path_stem.
  rewrite path_name_join
    by (rewrite occurs_app, Hs; reflexivity).
  change (stem ++ ".csv") with (stem ++ String "." "csv").
  rewrite before_last_dot_app by reflexivity.
  rewrite ends_with_app.
  destruct stem as [ | c stem]; [congruence | reflexivity].
Qed.

(** X22: the name of a model survives the round trip through its result
    file when it contains neither ["_wer"] nor a path separator: from the
    path [os.path.join(output_dir, <model_name>_wer.csv)] of the file
    written by the evaluation, the analysis recovers [<model_name>],
    whatever the output directory. *)
Theorem model_name_round_trip (output_dir name : string) :
  contains "_wer" name = false -> occurs "/" name = false ->
  model_name_of_path (output_file output_dir name) = name.
Proof.
  intros Hc Hs. unfold model_name_of_path, output_file.
  replace (name ++ "_wer.csv") with ((name ++ "_wer") ++ ".csv")
    by (rewrite append_assoc3; reflexivity).
  rewrite path_stem_csv.
  - apply model_name_of_stem_app, Hc.
  - rewrite occurs_app, Hs. reflexivity.
  - destruct name; discriminate.
Qed.

Lemma model_name_round_trip_witness :
  model_name_of_path (output_file "wer_results" "F5-TTS") = "F5-TTS" /\
  model_name_of_path (output_file "results/" "lower_v2.1") = "lower_v2.1".
Proof.
  split.
  - exact (model_name_round_trip "wer_results" "F5-TTS" eq_refl eq_refl).
  - exact (model_name_round_trip "results/" "lower_v2.1" eq_refl eq_refl).
Defined.

(** A separator in the name of the model is taken for a directory: the
    analysis recovers what follows it. *)
Example model_name_with_separator :
  output_file "wer_results" "team/xtts" = "wer_results/team/xtts_wer.csv" /\
  model_name_of_path (output_file "wer_results" "team/xtts") = "xtts".
Proof. split; vm_compute; reflexivity. Qed.

End ModelName.
